(** * EquityComparision.py: the metrics kernel and the chart kernel

    A shallow embedding of [safe_scalar], [compute_returns], [format_mcap]
    and the per-ticker chart loop of [EquityComparision.py].

    Numbers are Python numbers: unbounded integers and IEEE-754 binary64
    floats.  Floats are the Standard Library's [spec_float] at precision 53
    and maximal exponent 1024, so every rounding of the source arithmetic
    is the rounding of the model. *)

From Stdlib Require Import ZArith List String Ascii Bool Lia.
From Stdlib Require Import Floats.SpecFloat.
Import ListNotations.

Local Open Scope Z_scope.

(** ** Binary64 floats *)

Module F64.

Definition prec : Z := 53.
Definition emax : Z := 1024.

Definition float64 : Type := spec_float.

Definition nan : float64 := S754_nan.

Definition add : float64 -> float64 -> float64 := SFadd prec emax.
Definition sub : float64 -> float64 -> float64 := SFsub prec emax.
Definition mul : float64 -> float64 -> float64 := SFmul prec emax.
Definition div : float64 -> float64 -> float64 := SFdiv prec emax.
Definition abs : float64 -> float64 := SFabs.

Definition eqb : float64 -> float64 -> bool := SFeqb.
Definition ltb : float64 -> float64 -> bool := SFltb.
Definition leb : float64 -> float64 -> bool := SFleb.

(** The integer [z] rounded to the nearest float, ties to even; an
    infinity when [z] is beyond the largest finite float. *)
Definition of_Z (z : Z) : float64 := binary_normalize prec emax z 0 false.

(** The quotient of two integers rounded once (Python's [int / int]). *)
Definition div_Z (a b : Z) : float64 :=
  match a, b with
  | Z0, _ => S754_zero (b <? 0)
  | _, Z0 => S754_nan
  | Zpos p, Zpos q => div (S754_finite false p 0) (S754_finite false q 0)
  | Zpos p, Zneg q => div (S754_finite false p 0) (S754_finite true q 0)
  | Zneg p, Zpos q => div (S754_finite true p 0) (S754_finite false q 0)
  | Zneg p, Zneg q => div (S754_finite true p 0) (S754_finite true q 0)
  end.

Definition is_nan (f : float64) : bool :=
  match f with S754_nan => true | _ => false end.

Definition is_zero (f : float64) : bool :=
  match f with S754_zero _ => true | _ => false end.

Definition is_finite (f : float64) : bool :=
  match f with S754_zero _ | S754_finite _ _ _ => true | _ => false end.

Definition is_infinite (f : float64) : bool :=
  match f with S754_infinity _ => true | _ => false end.

(** The format invariant of binary64: the mantissa of a finite float has
    53 bits, or fewer at the smallest exponent -1074. *)
Definition valid (f : float64) : bool := valid_binary prec emax f.

(** Order between an integer and a float, both taken at their exact
    value, as Python compares an [int] with a [float]. *)
Definition compare_Z (z : Z) (f : float64) : option comparison :=
  match f with
  | S754_nan => None
  | S754_infinity s => Some (if s then Gt else Lt)
  | S754_zero _ => Some (z ?= 0)
  | S754_finite s m e =>
      let sm := if s then Zneg m else Zpos m in
      Some (if 0 <=? e then z ?= sm * 2 ^ e else z * 2 ^ (- e) ?= sm)
  end.

(** Float literals of the source. *)
Definition f_0 : float64 := S754_zero false.
Definition f_1 : float64 := Eval vm_compute in of_Z 1.
Definition f_100 : float64 := Eval vm_compute in of_Z 100.
Definition f_1e6 : float64 := Eval vm_compute in of_Z (10 ^ 6).
Definition f_1e9 : float64 := Eval vm_compute in of_Z (10 ^ 9).
Definition f_1e12 : float64 := Eval vm_compute in of_Z (10 ^ 12).
(** [1e-8] and [1e-5] are the floats nearest to the decimal fractions,
    which is what one correctly rounded division of exact operands gives. *)
Definition f_1e_8 : float64 := Eval vm_compute in div_Z 1 (10 ^ 8).
Definition f_1e_5 : float64 := Eval vm_compute in div_Z 1 (10 ^ 5).

End F64.

Import F64.

(** ** Decimal text of numbers *)

Module Text.

Local Open Scope string_scope.
Local Open Scope Z_scope.

Definition digit_char (d : Z) : ascii := ascii_of_nat (48 + Z.to_nat d).

(** Decimal digits of a positive number, most significant first; the
    recursion is on the binary length of [n], which bounds the number of
    decimal digits. *)
Fixpoint digits_fuel (fuel : nat) (n : Z) (acc : string) : string :=
  match fuel with
  | O => acc
  | S fuel' =>
      if n <? 10 then String (digit_char n) acc
      else digits_fuel fuel' (n / 10) (String (digit_char (n mod 10)) acc)
  end.

(** [digits n] is ["0"] for [n <= 0]. *)
Definition digits (n : Z) : string :=
  if n <=? 0 then "0" else digits_fuel (S (Z.to_nat (Z.log2 n))) n "".

(** Python's [str] of an [int]. *)
Definition str_int (z : Z) : string :=
  if z <? 0 then "-" ++ digits (- z) else digits z.

Fixpoint zeros (n : nat) : string :=
  match n with
  | O => ""
  | S n' => String "0" (zeros n')
  end.

(** [n] written with at least [w] digits. *)
Definition pad_left (w : nat) (n : Z) : string :=
  let s := digits n in zeros (w - String.length s) ++ s.

(** The integer nearest to [m * 2^e * 10^k], ties to even, for [0 <= m]
    and [0 <= k]. *)
Definition round_scaled (m e : Z) (k : Z) : Z :=
  let n := m * 10 ^ k in
  if 0 <=? e then n * 2 ^ e
  else
    let d := 2 ^ (- e) in
    let q := n / d in
    let r := n mod d in
    match 2 * r ?= d with
    | Lt => q
    | Gt => q + 1
    | Eq => if Z.even q then q else q + 1
    end.

(** Python's [format(x, ".2f")] on a float: the exact value rounded to
    two decimals, ties to even; the sign of a negative zero is kept. *)
Definition format_2f (f : float64) : string :=
  match f with
  | S754_nan => "nan"
  | S754_infinity s => if s then "-inf" else "inf"
  | S754_zero s => if s then "-0.00" else "0.00"
  | S754_finite s m e =>
      let n := round_scaled (Zpos m) e 2 in
      (if s then "-" else "") ++ digits (n / 100) ++ "." ++ pad_left 2 (n mod 100)
  end.

(** *** Shortest round-trip digits, for [repr] of a float *)

(** [cmp_dec_bin d k x e] orders [d * 10^k] against [x * 2^e]. *)
Definition cmp_dec_bin (d k x e : Z) : comparison :=
  (d * 10 ^ Z.max k 0 * 2 ^ Z.max (- e) 0 ?= x * 2 ^ Z.max e 0 * 10 ^ Z.max (- k) 0).

(** The largest [t] with [10^t <= m * 2^e], found around the estimate
    that the binary length gives. *)
Definition floor_log10 (m : positive) (e : Z) : Z :=
  let b := Zpos (digits2_pos m) + e in
  let t0 := ((b - 1) * 30103) / 100000 in
  let below t := match cmp_dec_bin 1 t (Zpos m) e with Gt => false | _ => true end in
  if below (t0 + 1) then t0 + 1 else if below t0 then t0 else t0 - 1.

(** The rounding interval of the float [m * 2^e] in units of [2^(e-2)]:
    every real strictly inside reads back as this float, and so do the
    end points when [m] is even. *)
Definition interval_lo (m : positive) (e : Z) : Z :=
  if (Zpos m =? 2 ^ (prec - 1)) && (emin prec emax <? e)
  then 4 * Zpos m - 1 else 4 * Zpos m - 2.

Definition interval_hi (m : positive) : Z := 4 * Zpos m + 2.

Definition reads_back (m : positive) (e : Z) (d k : Z) : bool :=
  let closed := Z.even (Zpos m) in
  let above_lo :=
    match cmp_dec_bin d k (interval_lo m e) (e - 2) with
    | Gt => true | Eq => closed | Lt => false end in
  let below_hi :=
    match cmp_dec_bin d k (interval_hi m) (e - 2) with
    | Lt => true | Eq => closed | Gt => false end in
  above_lo && below_hi.

(** Among the decimals with [n] digits at the magnitude of the float, the
    one that reads back and is nearest to it, if any. *)
Definition candidate (m : positive) (e : Z) (t : Z) (n : Z) : option (Z * Z) :=
  let k := t - n + 1 in
  (* d_lo = floor (m * 2^e / 10^k) *)
  let num := Zpos m * 2 ^ Z.max e 0 * 10 ^ Z.max (- k) 0 in
  let den := 2 ^ Z.max (- e) 0 * 10 ^ Z.max k 0 in
  let d_lo := num / den in
  let d_hi := d_lo + 1 in
  let r := num mod den in
  let lo_ok := (0 <? d_lo) && reads_back m e d_lo k in
  let hi_ok := reads_back m e d_hi k in
  match lo_ok, hi_ok with
  | false, false => None
  | true, false => Some (d_lo, k)
  | false, true => Some (d_hi, k)
  | true, true =>
      match 2 * r ?= den with
      | Lt => Some (d_lo, k)
      | Gt => Some (d_hi, k)
      | Eq => Some (if Z.even d_lo then d_lo else d_hi, k)
      end
  end.

Fixpoint shortest_from (fuel : nat) (m : positive) (e t n : Z) : Z * Z :=
  match fuel with
  | O => (Zpos m * 2 ^ Z.max e 0 * 5 ^ Z.max (- e) 0, Z.min e 0)
  | S fuel' =>
      match candidate m e t n with
      | Some dk => dk
      | None => shortest_from fuel' m e t (n + 1)
      end
  end.

Fixpoint strip_zeros (fuel : nat) (d k : Z) : Z * Z :=
  match fuel with
  | O => (d, k)
  | S fuel' => if (d mod 10 =? 0) && (0 <? d) then strip_zeros fuel' (d / 10) (k + 1) else (d, k)
  end.

(** The shortest decimal [d * 10^k] that reads back as [m * 2^e]; 17
    digits always suffice for a binary64 float. *)
Definition shortest (m : positive) (e : Z) : Z * Z :=
  let '(d, k) := shortest_from 17 m e (floor_log10 m e) 1 in
  strip_zeros 400 d k.

Definition drop_first (s : string) : string :=
  match s with
  | EmptyString => ""
  | String _ s' => s'
  end.

Definition first_char (s : string) : string :=
  match s with
  | EmptyString => ""
  | String c _ => String c ""
  end.

(** Python's [repr] (and [str]) of a float. *)
Definition repr_float (f : float64) : string :=
  match f with
  | S754_nan => "nan"
  | S754_infinity s => if s then "-inf" else "inf"
  | S754_zero s => if s then "-0.0" else "0.0"
  | S754_finite s m e =>
      let '(d, k) := shortest m e in
      let ds := digits d in
      let n := Z.of_nat (String.length ds) in
      let decpt := k + n in
      let body :=
        if (decpt <=? -4) || (16 <? decpt) then
          first_char ds
          ++ (if 1 <? n then "." ++ drop_first ds else "")
          ++ "e" ++ (if decpt - 1 <? 0 then "-" else "+")
          ++ pad_left 2 (Z.abs (decpt - 1))
        else if decpt <=? 0 then
          "0." ++ zeros (Z.to_nat (- decpt)) ++ ds
        else if n <=? decpt then
          ds ++ zeros (Z.to_nat (decpt - n)) ++ ".0"
        else
          substring 0 (Z.to_nat decpt) ds ++ "."
          ++ substring (Z.to_nat decpt) (Z.to_nat (n - decpt)) ds
      in (if s then "-" else "") ++ body
  end.

End Text.

(** ** Python values, exceptions and the execution monad *)

(** A Python scalar as the kernel meets it: [None], an [int], a [float]
    (Python's or numpy's, both binary64) or a [str]. *)
Inductive pyval : Type :=
  | PNone
  | PInt (z : Z)
  | PFloat (f : float64)
  | PStr (s : string).

(** [np.nan] *)
Definition np_nan : pyval := PFloat nan.

Inductive exn : Type :=
  | TypeError
  | KeyError
  | IndexError
  | ZeroDivisionError
  | OverflowError
  | ValueError.

(** What a run leaves behind besides its result: every true division
    [num / den] that was executed, in order. *)
Inductive event : Type :=
  | EvDiv (num den : pyval).

(** A computation yields the events it performed and either the exception
    it raised or its value. *)
Definition M (A : Type) : Type := list event * (exn + A).

Definition ret {A} (a : A) : M A := ([], inr a).
Definition raise {A} (e : exn) : M A := ([], inl e).
Definition emit (ev : event) : M unit := ([ev], inr tt).

Definition bind {A B} (m : M A) (k : A -> M B) : M B :=
  match m with
  | (l, inl e) => (l, inl e)
  | (l, inr a) => let '(l', r) := k a in (l ++ l', r)
  end.

(** [try: body except Exception: handler] *)
Definition try_except {A} (body : M A) (handler : exn -> M A) : M A :=
  match body with
  | (l, inl e) => let '(l', r) := handler e in (l ++ l', r)
  | (l, inr a) => (l, inr a)
  end.

Definition events {A} (m : M A) : list event := fst m.
Definition outcome {A} (m : M A) : exn + A := snd m.

Declare Scope py_scope.
Delimit Scope py_scope with py.
Notation "x <- c1 ;; c2" := (bind c1 (fun x => c2))
  (at level 61, c1 at next level, right associativity) : py_scope.
Notation "c1 ;;; c2" := (bind c1 (fun _ => c2))
  (at level 61, right associativity) : py_scope.

Local Open Scope py_scope.

(** *** Arithmetic and comparison of Python numbers *)

(** The implicit conversion of an operand of mixed arithmetic to [float]:
    an [int] beyond the float range raises [OverflowError]. *)
Definition to_float (v : pyval) : M float64 :=
  match v with
  | PFloat f => ret f
  | PInt z => let f := of_Z z in if is_infinite f then raise OverflowError else ret f
  | PNone | PStr _ => raise TypeError
  end.

Definition is_number (v : pyval) : bool :=
  match v with
  | PInt _ | PFloat _ => true
  | PNone | PStr _ => false
  end.

(** [a / b].  The division is recorded before it is attempted.  A zero
    divisor raises [ZeroDivisionError], as Python's numbers do (numpy's
    scalars return an infinity or a NaN and warn instead); the callers
    below never divide by zero, their guard [usable_base] and the
    non-zero literals exclude it. *)
Definition py_truediv (a b : pyval) : M pyval :=
  emit (EvDiv a b) ;;;
  match a, b with
  | PInt x, PInt y =>
      if y =? 0 then raise ZeroDivisionError
      else let q := div_Z x y in
           if is_infinite q then raise OverflowError else ret (PFloat q)
  | _, _ =>
      if is_number a && is_number b then
        x <- to_float a ;;
        y <- to_float b ;;
        if is_zero y then raise ZeroDivisionError else ret (PFloat (div x y))
      else raise TypeError
  end.

(** [a - b] *)
Definition py_sub (a b : pyval) : M pyval :=
  match a, b with
  | PInt x, PInt y => ret (PInt (x - y))
  | _, _ =>
      if is_number a && is_number b then
        x <- to_float a ;;
        y <- to_float b ;;
        ret (PFloat (sub x y))
      else raise TypeError
  end.

(** [a * c] for a float literal [c]; a [str] times a float is a
    [TypeError] like any other non-number. *)
Definition py_mul_float (a : pyval) (c : float64) : M pyval :=
  match a with
  | PInt _ | PFloat _ => x <- to_float a ;; ret (PFloat (mul x c))
  | PNone | PStr _ => raise TypeError
  end.

(** The order [a > c] between a number and a float: floats by the IEEE
    order (false on NaN), an [int] by its exact value. *)
Definition exceeds (a : pyval) (c : float64) : bool :=
  match a with
  | PFloat x => ltb c x
  | PInt z => match compare_Z z c with Some Gt => true | _ => false end
  | PNone | PStr _ => false
  end.

(** [a > c] for a float literal [c]; [None] and a [str] are not ordered
    against a float. *)
Definition py_gt_float (a : pyval) (c : float64) : M bool :=
  if is_number a then ret (exceeds a c) else raise TypeError.

(** [format(v, ".2f")]: an [int] is converted to [float] first; a [str]
    has no such format. *)
Definition py_format_2f (v : pyval) : M string :=
  match v with
  | PFloat f => ret (Text.format_2f f)
  | PInt _ => f <- to_float v ;; ret (Text.format_2f f)
  | PStr _ => raise ValueError
  | PNone => raise TypeError
  end.

(** Python's [str].  The cap that CPython puts on the length of the
    text of an [int] (a setting of the interpreter, 4300 digits unless
    changed) is left out. *)
Definition py_str (v : pyval) : string :=
  match v with
  | PNone => "None"
  | PInt z => Text.str_int z
  | PFloat f => Text.repr_float f
  | PStr s => s
  end.

(** *** pandas and numpy scalars *)

(** [pd.isna] on a scalar: [None] and NaN are missing; an infinity is
    not. *)
Definition pd_isna (v : pyval) : bool :=
  match v with
  | PNone => true
  | PFloat f => is_nan f
  | PInt _ | PStr _ => false
  end.

Definition pd_notna (v : pyval) : bool := negb (pd_isna v).

(** [np.isclose] on floats at the default tolerances
    [rtol = 1e-05], [atol = 1e-08]:
    [|a - b| <= atol + rtol * |b|] for a finite [b], or [a == b]. *)
Definition isclose (a b : float64) : bool :=
  (leb (abs (sub a b)) (add f_1e_8 (mul f_1e_5 (abs b))) && is_finite b) || eqb a b.

(** [np.isclose(v, 0)].  An [int] enters as a 64-bit integer array
    element; an [int] outside that range, a [str] or [None] makes an
    object array, on which the test raises. *)
Definition np_isclose_zero (v : pyval) : M bool :=
  match v with
  | PFloat f => ret (isclose f f_0)
  | PInt z =>
      if (- 2 ^ 63 <=? z) && (z <? 2 ^ 64) then ret (isclose (of_Z z) f_0)
      else raise TypeError
  | PNone | PStr _ => raise TypeError
  end.

(** ** Series and data frames *)

(** The index of a price history is a [DatetimeIndex]; a label is a
    timestamp, here its epoch number. *)
Definition timestamp : Type := Z.

(** A [pd.Series]: labelled cells, in order. *)
Definition series : Type := list (timestamp * pyval).

(** A [pd.DataFrame]: the row labels and the named columns, each with one
    cell per row. *)
Record DataFrame : Type := mkDataFrame {
  df_index : list timestamp;
  df_columns : list (string * list pyval)
}.

(** [pd.DataFrame()] *)
Definition empty_frame : DataFrame := mkDataFrame [] [].

(** [df.empty]: no row or no column. *)
Definition df_empty (df : DataFrame) : bool :=
  match df_index df, df_columns df with
  | [], _ | _, [] => true
  | _, _ => false
  end.

Fixpoint find_column (name : string) (cols : list (string * list pyval)) : option (list pyval) :=
  match cols with
  | [] => None
  | (n, c) :: cols' => if String.eqb n name then Some c else find_column name cols'
  end.

(** [df[name]] *)
Definition df_getitem (df : DataFrame) (name : string) : M series :=
  match find_column name (df_columns df) with
  | Some c => ret (combine (df_index df) c)
  | None => raise KeyError
  end.

(** [series.empty] *)
Definition series_empty (s : series) : bool :=
  match s with
  | [] => true
  | _ :: _ => false
  end.

(** [series.dropna()] *)
Definition dropna (s : series) : series :=
  filter (fun cell => pd_notna (snd cell)) s.

(** [series.iloc[[i]]]: the one-row series at position [i], counted from
    the end when [i] is negative. *)
Definition iloc1 (s : series) (i : Z) : M series :=
  let n := Z.of_nat (List.length s) in
  let j := if i <? 0 then n + i else i in
  if (0 <=? j) && (j <? n) then
    match nth_error s (Z.to_nat j) with
    | Some cell => ret [cell]
    | None => raise IndexError
    end
  else raise IndexError.

(** What [safe_scalar] is handed: a scalar, a [list] (or [np.ndarray]) of
    scalars, or a series. *)
Inductive pyobj : Type :=
  | OScalar (v : pyval)
  | OList (l : list pyval)
  | OSeries (s : series).

(** ** The kernel *)

(** [safe_scalar(val)].  On a series [val[0]] looks the integer up as a
    label first; the labels are timestamps, none is the integer [0], and
    the lookup falls back to the position (pandas 1 and 2). *)
Definition safe_scalar (val : pyobj) : pyval :=
  match val with
  | OList l =>
      match l with
      | v :: _ => v
      | [] => np_nan
      end
  | OSeries s =>
      match s with
      | (_, v) :: _ => v
      | [] => np_nan
      end
  | OScalar v => v
  end.

(** [pd.notna(v) and not np.isclose(v, 0)]; the right operand is only
    evaluated when the left one holds. *)
Definition usable_base (v : pyval) : M bool :=
  if pd_notna v then c <- np_isclose_zero v ;; ret (negb c) else ret false.

(** [(end_val / start_val - 1) * 100.0] *)
Definition return_percent (end_val start_val : pyval) : M pyval :=
  q <- py_truediv end_val start_val ;;
  d <- py_sub q (PInt 1) ;;
  py_mul_float d f_100.

(** [compute_returns(df)] *)
Definition compute_returns (df : DataFrame) : M pyval :=
  if df_empty df then ret np_nan
  else
    col <- df_getitem df "Close" ;;
    let series := dropna col in
    if series_empty series then ret np_nan
    else
      first <- iloc1 series 0 ;;
      let start_val := safe_scalar (OSeries first) in
      last <- iloc1 series (-1) ;;
      let end_val := safe_scalar (OSeries last) in
      ok <- usable_base start_val ;;
      if ok then
        try_except (return_percent end_val start_val) (fun _ => ret np_nan)
      else ret np_nan.

(** [format_mcap(val)] *)
Definition format_mcap (val : pyobj) : M string :=
  let val := safe_scalar val in
  if pd_isna val then ret "NA"%string
  else
    c <- py_gt_float val f_1e12 ;;
    if c then
      q <- py_truediv val (PFloat f_1e12) ;;
      t <- py_format_2f q ;;
      ret (t ++ " T")%string
    else
      c <- py_gt_float val f_1e9 ;;
      if c then
        q <- py_truediv val (PFloat f_1e9) ;;
        t <- py_format_2f q ;;
        ret (t ++ " B")%string
      else
        c <- py_gt_float val f_1e6 ;;
        if c then
          q <- py_truediv val (PFloat f_1e6) ;;
          t <- py_format_2f q ;;
          ret (t ++ " M")%string
        else ret (py_str val).

(** ** The chart loop *)

(** Run [f] over the cells of a series, left to right; the first
    exception ends the run. *)
Fixpoint series_mapM (f : pyval -> M pyval) (s : series) : M series :=
  match s with
  | [] => ret []
  | (t, v) :: s' =>
      v' <- f v ;;
      r <- series_mapM f s' ;;
      ret ((t, v') :: r)
  end.

(** The chart as the loop leaves it: the label of the y axis, the lines
    drawn so far and the errors shown so far, both oldest first. *)
Record chart : Type := mkChart {
  ylabel : option string;
  lines : list (string * series);
  errors : list (string * exn)
}.

(** [plt.subplots(...)]: fresh axes. *)
Definition new_chart : chart := mkChart None [] [].

Definition set_ylabel (l : string) (c : chart) : chart :=
  mkChart (Some l) (lines c) (errors c).

Definition add_line (s : string) (data : series) (c : chart) : chart :=
  mkChart (ylabel c) (lines c ++ [(s, data)]) (errors c).

(** [st.error(f"Error plotting {s}: {e}...")] *)
Definition st_error (s : string) (e : exn) (c : chart) : chart :=
  mkChart (ylabel c) (lines c) (errors c ++ [(s, e)]).

Section Chart.

(** pandas' reading of a string as a number, [None] when it reads as
    none; it belongs to [pd.to_numeric]. *)
Variable parse_numeric : string -> option float64.

(** Whether drawing a line of this label and data fails in the plotting
    backend, and with which exception. *)
Variable plot_error : string -> series -> option exn.

(** [pd.to_numeric(series, errors="coerce")]: every cell becomes a
    number, what is no number becomes NaN.  A column of integers stays
    integer in pandas and is converted when it enters the float division;
    the conversion is done here. *)
Definition to_numeric_cell (v : pyval) : pyval :=
  match v with
  | PFloat f => PFloat f
  | PInt z => PFloat (of_Z z)
  | PStr s =>
      match parse_numeric s with
      | Some f => PFloat f
      | None => np_nan
      end
  | PNone => np_nan
  end.

Definition to_numeric (s : series) : series :=
  map (fun cell => (fst cell, to_numeric_cell (snd cell))) s.

(** The cleaning at the head of the loop body.  [df["Close"]] of a data
    frame is a series, so the [isinstance] test holds and the [else]
    branch of the source is not taken. *)
Definition clean (col : series) : series := dropna (to_numeric col).

(** [(series / base) * 100.0], cell by cell. *)
Definition rebase (s : series) (base : pyval) : M series :=
  q <- series_mapM (fun v => py_truediv v base) s ;;
  series_mapM (fun v => py_mul_float v f_100) q.

(** The body of the loop up to the drawing: the series to draw and the
    axis label to set, or [None] at [continue]. *)
Definition build_chart_series (chart_type : string) (df : DataFrame) : M (option (series * string)) :=
  col <- df_getitem df "Close" ;;
  let series := clean col in
  if series_empty series then ret None
  else if String.eqb chart_type "Relative Price" then
    first <- iloc1 series 0 ;;
    let base := safe_scalar (OSeries first) in
    ok <- usable_base base ;;
    series <- (if ok then rebase series base else ret series) ;;
    ret (Some (series, "Relative Price (%)"%string))
  else ret (Some (series, "Actual Price"%string)).

(** One turn of [for s, df in histories.items()], with its
    [try]/[except Exception]. *)
Definition chart_step (chart_type : string) (c : chart) (item : string * DataFrame) : chart :=
  let '(s, df) := item in
  match outcome (build_chart_series chart_type df) with
  | inl e => st_error s e c
  | inr None => c
  | inr (Some (data, label)) =>
      let c := set_ylabel label c in
      match plot_error s data with
      | Some e => st_error s e c
      | None => add_line s data c
      end
  end.

(** The whole loop over [histories.items()]. *)
Definition chart_loop (chart_type : string) (histories : list (string * DataFrame)) (c : chart) : chart :=
  fold_left (chart_step chart_type) histories c.

(** The closing column after the cleaning of the loop body. *)
Definition cleaned_close (df : DataFrame) : option series :=
  match find_column "Close" (df_columns df) with
  | Some col => Some (clean (combine (df_index df) col))
  | None => None
  end.

End Chart.

(** ** The data provider, the histories and the metrics *)

(** A Python [dict] with string keys: the items in insertion order.
    [d[k] = v] replaces the value of a key that is present, in its place,
    and adds a key that is not at the end. *)
Fixpoint dict_set {V : Type} (k : string) (v : V) (d : list (string * V)) : list (string * V) :=
  match d with
  | [] => [(k, v)]
  | (k', v') :: d' =>
      if String.eqb k' k then (k', v) :: d' else (k', v') :: dict_set k v d'
  end.

(** [d[k]], when the key is present. *)
Fixpoint dict_get {V : Type} (k : string) (d : list (string * V)) : option V :=
  match d with
  | [] => None
  | (k', v) :: d' => if String.eqb k' k then Some v else dict_get k d'
  end.

(** The result of a call into the provider: the exception it raised or
    its value; no division of the kernel is involved. *)
Definition call {A} (r : exn + A) : M A := ([], r).

(** [yf.Ticker(t).fast_info]: a lazy mapping; looking a key up may raise
    (the lookup fetches), may find no such key, or gives a value. *)
Definition fast_info : Type := string -> exn + option pyobj.

(** [info.get(key, default)] *)
Definition info_get (info : fast_info) (key : string) (default : pyobj) : M pyobj :=
  match info key with
  | inl e => raise e
  | inr None => ret default
  | inr (Some v) => ret v
  end.

(** One row of the metrics table. *)
Record metric : Type := mkMetric {
  return_pct : pyval;
  market_cap : string
}.

Section Provider.

(** [yf.Ticker(ticker).history(period=period)] *)
Variable yf_history : string -> string -> exn + DataFrame.

(** [yf.Ticker(ticker).fast_info] *)
Variable yf_fast_info : string -> exn + fast_info.

(** [load_data(ticker, period)] *)
Definition load_data (ticker period : string) : M DataFrame :=
  try_except (call (yf_history ticker period)) (fun _ => ret empty_frame).

(** [histories = {s: load_data(s, period) for s in stocks}] *)
Definition build_histories (stocks : list string) (period : string) : M (list (string * DataFrame)) :=
  fold_left
    (fun acc s =>
       d <- acc ;;
       df <- load_data s period ;;
       ret (dict_set s df d))
    stocks (ret []).

(** [get_marketcap(ticker)] *)
Definition get_marketcap (ticker : string) : M pyobj :=
  try_except
    (info <- call (yf_fast_info ticker) ;;
     info_get info "marketCap" (OScalar np_nan))
    (fun _ => ret (OScalar np_nan)).

(** The metrics of one ticker; the return is computed first. *)
Definition metrics_row (df : DataFrame) (s : string) : M metric :=
  r <- compute_returns df ;;
  cap <- get_marketcap s ;;
  t <- format_mcap cap ;;
  ret (mkMetric r t).

(** [metrics = {s: {"Return %": ..., "Market Cap": ...}
               for s, df in histories.items()}]; nothing catches what a
    row raises. *)
Definition metrics (histories : list (string * DataFrame)) : M (list (string * metric)) :=
  fold_left
    (fun acc item =>
       m <- acc ;;
       row <- metrics_row (snd item) (fst item) ;;
       ret (dict_set (fst item) row m))
    histories (ret []).

Variable parse_numeric : string -> option float64.
Variable plot_error : string -> series -> option exn.

(** The script from the fetch to the chart: the histories, the metrics
    table, then the chart loop on fresh axes.  An exception of the
    metrics ends the run before the chart. *)
Definition page (stocks : list string) (period chart_type : string) : M (list (string * metric) * chart) :=
  histories <- build_histories stocks period ;;
  table <- metrics histories ;;
  ret (table, chart_loop parse_numeric plot_error chart_type histories new_chart).

End Provider.

(** * The vocabulary of the statements *)

(** A defined number and the float it enters float arithmetic as: a float
    that is no NaN, or an [int] within the float range. *)
Definition as_float (v : pyval) : option float64 :=
  match v with
  | PFloat f => if is_nan f then None else Some f
  | PInt z => if is_infinite (of_Z z) then None else Some (of_Z z)
  | PNone | PStr _ => None
  end.

(** A defined number: an [int], or a float that is no NaN. *)
Definition defined_number (v : pyval) : bool :=
  match v with
  | PFloat f => negb (is_nan f)
  | PInt _ => true
  | PNone | PStr _ => false
  end.


(** The exact value of [x] is above the integer [n]. *)
Definition exactly_above (n : Z) (x : float64) : bool :=
  match compare_Z n x with
  | Some Lt => true
  | _ => false
  end.


(** The text of a value scaled by a threshold: [f"{x/c:.2f}"] followed
    by the suffix. *)
Definition scaled_text (x c : float64) (suffix : string) : string :=
  (Text.format_2f (div x c) ++ suffix)%string.

(** The float literals of the examples. *)
Definition f_2_5e12 : float64 := Eval vm_compute in of_Z (25 * 10 ^ 11).
Definition f_3_4e9 : float64 := Eval vm_compute in of_Z (34 * 10 ^ 8).
Definition f_7_1e6 : float64 := Eval vm_compute in of_Z (71 * 10 ^ 5).

(** The undefined values: [None] and NaN. *)
Definition undefined (v : pyval) : Prop := v = PNone \/ v = np_nan.

(** What is left of the closing column after [dropna], when the frame is
    not empty and has the column. *)
Definition remaining_close (df : DataFrame) : option series :=
  if df_empty df then None
  else match find_column "Close" (df_columns df) with
       | Some col => Some (dropna (combine (df_index df) col))
       | None => None
       end.

(** The divisor test of [py_truediv]. *)
Definition zero_divisor (v : pyval) : bool :=
  match v with
  | PInt z => z =? 0
  | PFloat f => is_zero f
  | PNone | PStr _ => false
  end.

(** A frame that has only the closing column, one row per price, the
    rows labelled 0, 1, 2, ... *)
Definition close_frame (prices : list pyval) : DataFrame :=
  mkDataFrame (map Z.of_nat (seq 0 (List.length prices))) [("Close"%string, prices)].

Definition f_50 : float64 := Eval vm_compute in of_Z 50.
Definition f_75 : float64 := Eval vm_compute in of_Z 75.
Definition f_110 : float64 := Eval vm_compute in of_Z 110.
Definition f_150 : float64 := Eval vm_compute in of_Z 150.
Definition f_200 : float64 := Eval vm_compute in of_Z 200.
Definition f_inf : float64 := S754_infinity false.

(** A cell that holds a float other than NaN. *)
Definition is_float_cell (c : timestamp * pyval) : Prop :=
  exists f, snd c = PFloat f /\ is_nan f = false.

(** The cell [v] rebased on [b]: [(v / b) * 100.0]. *)
Definition rebase_cell (b : float64) (c : timestamp * pyval) : timestamp * pyval :=
  (fst c, match snd c with
          | PFloat v => PFloat (mul (div v b) f_100)
          | other => other
          end).

(** A column without text in it is read the same by every parser. *)
Definition parse_nothing : string -> option float64 := fun _ => None.

(** A backend that draws every line but those of the ticker [bad]. *)
Definition plot_fails_for (bad : string) : string -> series -> option exn :=
  fun s _ => if String.eqb s bad then Some ValueError else None.

(** Four tickers: one drawn, one with nothing left after the cleaning,
    one without the column, one that the backend fails to draw, and a
    last one drawn after all of them. *)
Definition sample_histories : list (string * DataFrame) :=
  [("A"%string, close_frame [PFloat f_50; PFloat f_75]);
   ("B"%string, close_frame [PNone; np_nan]);
   ("C"%string, empty_frame);
   ("X"%string, close_frame [PFloat f_100]);
   ("D"%string, close_frame [PStr "n/a"; PFloat f_100; PFloat f_200])].

(** A closing cell as the provider delivers it: a float, or [None]. *)
Definition float_or_none (v : pyval) : Prop := v = PNone \/ exists f, v = PFloat f.

(** The character [c] does not occur in [s]. *)
Fixpoint lacks (c : ascii) (s : string) : Prop :=
  match s with
  | EmptyString => True
  | String c' s' => c' <> c /\ lacks c s'
  end.

(** The provider has no capitalization to give: the mapping cannot be
    had, or the lookup of ["marketCap"] raises, or there is no such
    key. *)
Definition lacks_cap (r : exn + fast_info) : Prop :=
  match r with
  | inl _ => True
  | inr info =>
      match info "marketCap"%string with
      | inr (Some _) => False
      | _ => True
      end
  end.

(** The label that the loop body sets for a chart type. *)
Definition axis_label (chart_type : string) : string :=
  if String.eqb chart_type "Relative Price" then "Relative Price (%)"%string
  else "Actual Price"%string.

(** The frame that [load_data] delivers for what the provider answered. *)
Definition loaded (r : exn + DataFrame) : DataFrame :=
  match r with
  | inr df => df
  | inl _ => empty_frame
  end.

(** A provider that is down, and one that knows two tickers. *)
Definition history_down : string -> string -> exn + DataFrame :=
  fun _ _ => inl ValueError.

Definition fast_info_down : string -> exn + fast_info :=
  fun _ => inl ValueError.

Definition sample_history : string -> string -> exn + DataFrame :=
  fun s _ =>
    if String.eqb s "TCS.NS" then inr (close_frame [PFloat f_100; PFloat f_110])
    else if String.eqb s "INFY.NS" then inr (close_frame [PFloat f_50; np_nan; PFloat f_75])
    else inl ValueError.

Definition sample_fast_info : string -> exn + fast_info :=
  fun s =>
    if String.eqb s "TCS.NS" then
      inr (fun key => if String.eqb key "marketCap"
                      then inr (Some (OScalar (PFloat f_2_5e12))) else inr None)
    else if String.eqb s "INFY.NS" then inr (fun _ => inr None)
    else inl ValueError.

(** The row of the metrics table that belongs to an item of the
    histories: the ticker, what [compute_returns] returns for its frame
    and what [format_mcap(get_marketcap(...))] returns for it. *)
Definition row_of (yf_fast_info : string -> exn + fast_info)
    (item : string * DataFrame) (row : string * metric) : Prop :=
  fst row = fst item /\
  outcome (compute_returns (snd item)) = inr (return_pct (snd row)) /\
  outcome (cap <- get_marketcap yf_fast_info (fst item) ;; format_mcap cap) =
    inr (market_cap (snd row)).

(** A frame as the provider delivers it, or the empty frame of a failed
    fetch: its closing column holds floats and [None] only. *)
Definition float_frame (df : DataFrame) : Prop :=
  df_empty df = true \/
  exists col, find_column "Close" (df_columns df) = Some col /\ Forall float_or_none col.

(** A capitalization that is missing, or that is a float or [None],
    alone or first in a list or a series. *)
Definition float_cap (r : exn + fast_info) : Prop :=
  lacks_cap r \/
  exists info v, r = inr info /\ info "marketCap"%string = inr (Some v) /\
                 float_or_none (safe_scalar v).

(** * Properties *)

Arguments F64.div : simpl never.
Arguments F64.mul : simpl never.
Arguments F64.sub : simpl never.
Arguments F64.add : simpl never.
Arguments F64.of_Z : simpl never.
Arguments F64.div_Z : simpl never.
Arguments Text.format_2f : simpl never.
Arguments Text.repr_float : simpl never.
Arguments Text.str_int : simpl never.

(** ** The execution monad *)

Lemma bind_ret {A B} (a : A) (k : A -> M B) : bind (ret a) k = k a.
Proof. unfold bind, ret. destruct (k a) as [l r]. reflexivity. Qed.

Lemma bind_raise {A B} (e : exn) (k : A -> M B) : bind (raise e) k = raise e.
Proof. reflexivity. Qed.

Lemma events_bind {A B} (m : M A) (k : A -> M B) :
  events (bind m k) =
  events m ++ match outcome m with inl _ => [] | inr a => events (k a) end.
Proof.
  destruct m as [l [e | a]]; simpl.
  - now rewrite app_nil_r.
  - destruct (k a) as [l' r]. reflexivity.
Qed.

Lemma outcome_bind {A B} (m : M A) (k : A -> M B) :
  outcome (bind m k) =
  match outcome m with inl e => inl e | inr a => outcome (k a) end.
Proof.
  destruct m as [l [e | a]]; simpl; [reflexivity |].
  destruct (k a) as [l' r]. reflexivity.
Qed.

Lemma events_try_except {A} (m : M A) (h : exn -> M A) :
  events (try_except m h) =
  events m ++ match outcome m with inl e => events (h e) | inr _ => [] end.
Proof.
  destruct m as [l [e | a]]; simpl.
  - destruct (h e) as [l' r]. reflexivity.
  - now rewrite app_nil_r.
Qed.

(** A handler that does not raise makes the whole [try] statement raise
    nothing. *)
Lemma try_except_never_raises {A} (m : M A) (a : A) :
  exists r, outcome (try_except m (fun _ => ret a)) = inr r.
Proof.
  destruct m as [l [e | x]]; simpl; eauto.
Qed.

Arguments bind {A B} m k : simpl never.
Arguments try_except {A} body handler : simpl never.

(** ** Numbers *)

Lemma as_float_defined v x : as_float v = Some x -> defined_number v = true.
Proof.
  destruct v as [| z | f | s]; simpl; try discriminate; [reflexivity |].
  destruct (is_nan f); [discriminate | reflexivity].
Qed.

Lemma defined_number_notna v : defined_number v = true -> pd_isna v = false.
Proof.
  destruct v as [| z | f | s]; simpl; try discriminate; [reflexivity |].
  now destruct (is_nan f).
Qed.

Lemma defined_number_is_number v : defined_number v = true -> is_number v = true.
Proof. destruct v; simpl; congruence. Qed.

Lemma as_float_to_float v x : as_float v = Some x -> to_float v = ret x.
Proof.
  destruct v as [| z | f | s]; simpl; try discriminate.
  - destruct (is_infinite (of_Z z)); [discriminate | congruence].
  - destruct (is_nan f); [discriminate | congruence].
Qed.

(** Division of a defined number by a non-zero float literal. *)
Lemma py_truediv_literal v x c :
  as_float v = Some x -> is_zero c = false ->
  py_truediv v (PFloat c) = ([EvDiv v (PFloat c)], inr (PFloat (div x c))).
Proof.
  intros Hv Hc. unfold py_truediv.
  assert (Hn : is_number v = true)
    by (apply defined_number_is_number; eapply as_float_defined; eauto).
  assert (Hbody :
    (if is_number v && is_number (PFloat c)
     then x0 <- to_float v ;; y <- to_float (PFloat c) ;;
          (if is_zero y then raise ZeroDivisionError else ret (PFloat (div x0 y)))
     else raise TypeError) = ret (PFloat (div x c))).
  { rewrite Hn. simpl. rewrite (as_float_to_float _ _ Hv), bind_ret, bind_ret, Hc.
    reflexivity. }
  destruct v as [| z | f | s]; try discriminate; simpl in *; rewrite Hbody;
    reflexivity.
Qed.

(** Against the three thresholds an [int] is compared at its exact
    value. *)
Lemma exceeds_int_1e12 z : exceeds (PInt z) f_1e12 = (10 ^ 12 <? z).
Proof.
  unfold exceeds, compare_Z, f_1e12. simpl.
  change (Z.pow_pos 2 13) with 8192. change (Z.pow_pos 10 12) with 1000000000000.
  destruct (Z.compare_spec (z * 8192) 8192000000000000);
    destruct (Z.ltb_spec 1000000000000 z); try reflexivity; lia.
Qed.

Lemma exceeds_int_1e9 z : exceeds (PInt z) f_1e9 = (10 ^ 9 <? z).
Proof.
  unfold exceeds, compare_Z, f_1e9. simpl.
  change (Z.pow_pos 2 23) with 8388608. change (Z.pow_pos 10 9) with 1000000000.
  destruct (Z.compare_spec (z * 8388608) 8388608000000000);
    destruct (Z.ltb_spec 1000000000 z); try reflexivity; lia.
Qed.

Lemma exceeds_int_1e6 z : exceeds (PInt z) f_1e6 = (10 ^ 6 <? z).
Proof.
  unfold exceeds, compare_Z, f_1e6. simpl.
  change (Z.pow_pos 2 33) with 8589934592. change (Z.pow_pos 10 6) with 1000000.
  destruct (Z.compare_spec (z * 8589934592) 8589934592000000);
    destruct (Z.ltb_spec 1000000 z); try reflexivity; lia.
Qed.

(** The thresholds are nested: what does not exceed a smaller one does
    not exceed a larger one.  For floats this needs no assumption on the
    float. *)
Lemma ltb_1e6_1e9 x : ltb f_1e6 x = false -> ltb f_1e9 x = false.
Proof.
  destruct x as [s | s | | s m e]; try reflexivity.
  - destruct s; cbv; congruence.
  - destruct s; [reflexivity |].
    unfold ltb, SFltb, f_1e6, f_1e9, SFcompare.
    destruct (Z.compare_spec (-33) e) as [He | He | He];
      destruct (Z.compare_spec (-23) e) as [He' | He' | He'];
      try discriminate; try reflexivity; try lia.
Qed.

Lemma ltb_1e9_1e12 x : ltb f_1e9 x = false -> ltb f_1e12 x = false.
Proof.
  destruct x as [s | s | | s m e]; try reflexivity.
  - destruct s; cbv; congruence.
  - destruct s; [reflexivity |].
    unfold ltb, SFltb, f_1e9, f_1e12, SFcompare.
    destruct (Z.compare_spec (-23) e) as [He | He | He];
      destruct (Z.compare_spec (-13) e) as [He' | He' | He'];
      try discriminate; try reflexivity; try lia.
Qed.

Lemma exceeds_1e6_1e9 v : exceeds v f_1e6 = false -> exceeds v f_1e9 = false.
Proof.
  destruct v as [| z | f | s]; try reflexivity.
  - rewrite exceeds_int_1e6, exceeds_int_1e9.
    intros H. apply Z.ltb_ge in H. apply Z.ltb_ge. lia.
  - apply ltb_1e6_1e9.
Qed.

Lemma exceeds_1e9_1e12 v : exceeds v f_1e9 = false -> exceeds v f_1e12 = false.
Proof.
  destruct v as [| z | f | s]; try reflexivity.
  - rewrite exceeds_int_1e9, exceeds_int_1e12.
    intros H. apply Z.ltb_ge in H. apply Z.ltb_ge. lia.
  - apply ltb_1e9_1e12.
Qed.



Lemma bind_value {A B} (l : list event) (a : A) (k : A -> M B) :
  bind (l, inr a) k = (l ++ events (k a), outcome (k a)).
Proof. unfold bind. destruct (k a) as [l' r]. reflexivity. Qed.

(** ** The order of floats and exact values *)

Lemma digits2_pos_bounds (m : positive) :
  2 ^ (Zpos (digits2_pos m) - 1) <= Zpos m < 2 ^ Zpos (digits2_pos m).
Proof.
  induction m as [p IH | p IH |]; cbn [digits2_pos].
  - rewrite Pos2Z.inj_succ.
    replace (Z.succ (Zpos (digits2_pos p)) - 1) with (Z.succ (Zpos (digits2_pos p) - 1)) by lia.
    rewrite !Z.pow_succ_r by lia. lia.
  - rewrite Pos2Z.inj_succ.
    replace (Z.succ (Zpos (digits2_pos p)) - 1) with (Z.succ (Zpos (digits2_pos p) - 1)) by lia.
    rewrite !Z.pow_succ_r by lia. lia.
  - cbn. lia.
Qed.

(** What the format invariant says of a finite float: at most 53 bits,
    and exactly 53 above the smallest exponent. *)
Lemma valid_finite_bounds (s : bool) (m : positive) (e : Z) :
  valid (S754_finite s m e) = true ->
  Zpos m < 2 ^ 53 /\ (-1074 < e -> 2 ^ 52 <= Zpos m).
Proof.
  unfold valid, valid_binary, bounded, canonical_mantissa, fexp, emin, prec, emax.
  intros H. apply andb_true_iff in H. destruct H as [Hc _].
  apply Z.eqb_eq in Hc.
  pose proof (digits2_pos_bounds m) as [Hlo Hhi].
  assert (Hd : Zpos (digits2_pos m) <= 53) by lia.
  split.
  - apply Z.lt_le_trans with (1 := Hhi). apply Z.pow_le_mono_r; lia.
  - intros He. assert (Hd' : Zpos (digits2_pos m) = 53) by lia.
    rewrite Hd' in Hlo. exact Hlo.
Qed.

(** The IEEE order against a positive normal float of integer value [n]
    is the order of the exact values. *)
Lemma ltb_integer_exact (n : Z) (m0 : positive) (e0 : Z) (x : float64) :
  0 < n -> - 1074 < e0 < 0 -> 2 ^ 52 <= Zpos m0 < 2 ^ 53 ->
  Zpos m0 = n * 2 ^ (- e0) ->
  valid x = true ->
  ltb (S754_finite false m0 e0) x = exactly_above n x.
Proof.
  intros Hn He0 Hm0 Hval Hx.
  destruct x as [s | s | | s m e]; unfold exactly_above, compare_Z.
  - cbn. destruct (Z.compare_spec n 0); try reflexivity; lia.
  - now destruct s.
  - reflexivity.
  - destruct (valid_finite_bounds s m e Hx) as [Hhi Hlo].
    destruct s.
    + cbn [ltb SFltb SFcompare].
      destruct (Z.leb_spec 0 e).
      * assert (0 < 2 ^ e) by (apply Z.pow_pos_nonneg; lia).
        destruct (Z.compare_spec n (Zneg m * 2 ^ e)); try reflexivity; nia.
      * assert (0 < 2 ^ (- e)) by (apply Z.pow_pos_nonneg; lia).
        destruct (Z.compare_spec (n * 2 ^ (- e)) (Zneg m)); try reflexivity; nia.
    + unfold ltb, SFltb, SFcompare.
      destruct (Z.compare_spec e0 e) as [Heq | Hlt | Hgt].
      * subst e. destruct (Z.leb_spec 0 e0); [lia |].
        rewrite <- Hval. reflexivity.
      * specialize (Hlo ltac:(lia)).
        destruct (Z.leb_spec 0 e).
        -- assert (0 < 2 ^ e) by (apply Z.pow_pos_nonneg; lia).
           assert (2 <= 2 ^ (- e0)).
           { change 2 with (2 ^ 1) at 1. apply Z.pow_le_mono_r; lia. }
           destruct (Z.compare_spec n (Zpos m * 2 ^ e)); try reflexivity; nia.
        -- assert (Hp : 2 ^ (- e0) = 2 ^ (- e) * 2 ^ (e - e0)).
           { rewrite <- Z.pow_add_r by lia. f_equal. lia. }
           assert (2 <= 2 ^ (e - e0)).
           { change 2 with (2 ^ 1) at 1. apply Z.pow_le_mono_r; lia. }
           assert (0 < 2 ^ (- e)) by (apply Z.pow_pos_nonneg; lia).
           destruct (Z.compare_spec (n * 2 ^ (- e)) (Zpos m)); try reflexivity; nia.
      * destruct (Z.leb_spec 0 e); [lia |].
        assert (Hp : 2 ^ (- e) = 2 ^ (- e0) * 2 ^ (e0 - e)).
        { rewrite <- Z.pow_add_r by lia. f_equal. lia. }
        assert (2 <= 2 ^ (e0 - e)).
        { change 2 with (2 ^ 1) at 1. apply Z.pow_le_mono_r; lia. }
        destruct (Z.compare_spec (n * 2 ^ (- e)) (Zpos m)); try reflexivity; nia.
Qed.

(** Above a threshold in the IEEE order is above it in exact value. *)
Lemma exceeds_float_1e12 x : valid x = true -> exceeds (PFloat x) f_1e12 = exactly_above (10 ^ 12) x.
Proof. apply ltb_integer_exact; try reflexivity; [lia | split; [discriminate | reflexivity]]. Qed.

Lemma exceeds_float_1e9 x : valid x = true -> exceeds (PFloat x) f_1e9 = exactly_above (10 ^ 9) x.
Proof. apply ltb_integer_exact; try reflexivity; [lia | split; [discriminate | reflexivity]]. Qed.

Lemma exceeds_float_1e6 x : valid x = true -> exceeds (PFloat x) f_1e6 = exactly_above (10 ^ 6) x.
Proof. apply ltb_integer_exact; try reflexivity; [lia | split; [discriminate | reflexivity]]. Qed.

(** ** The plain text of a number *)












(** ** [format_mcap] *)

(** The three suffix branches and the plain branch, for every defined
    number that float arithmetic accepts. *)
Lemma format_mcap_number v x :
  as_float v = Some x ->
  outcome (format_mcap (OScalar v)) =
  inr (if exceeds v f_1e12 then scaled_text x f_1e12 " T"
       else if exceeds v f_1e9 then scaled_text x f_1e9 " B"
       else if exceeds v f_1e6 then scaled_text x f_1e6 " M"
       else py_str v).
Proof.
  intros Hv.
  pose proof (as_float_defined _ _ Hv) as Hd.
  unfold format_mcap. cbn [safe_scalar].
  rewrite (defined_number_notna _ Hd).
  unfold py_gt_float. rewrite (defined_number_is_number _ Hd).
  rewrite bind_ret.
  destruct (exceeds v f_1e12).
  { rewrite (py_truediv_literal v x f_1e12 Hv eq_refl), bind_value.
    cbn [py_format_2f]. rewrite bind_ret. reflexivity. }
  rewrite bind_ret.
  destruct (exceeds v f_1e9).
  { rewrite (py_truediv_literal v x f_1e9 Hv eq_refl), bind_value.
    cbn [py_format_2f]. rewrite bind_ret. reflexivity. }
  rewrite bind_ret.
  destruct (exceeds v f_1e6).
  { rewrite (py_truediv_literal v x f_1e6 Hv eq_refl), bind_value.
    cbn [py_format_2f]. rewrite bind_ret. reflexivity. }
  reflexivity.
Qed.

(** The plain branch performs no arithmetic at all, so it is open to
    every defined number, also to an [int] beyond the float range. *)
Lemma format_mcap_plain v :
  defined_number v = true -> exceeds v f_1e6 = false ->
  format_mcap (OScalar v) = ret (py_str v).
Proof.
  intros Hd H6.
  pose proof (exceeds_1e6_1e9 _ H6) as H9.
  pose proof (exceeds_1e9_1e12 _ H9) as H12.
  unfold format_mcap. cbn [safe_scalar].
  rewrite (defined_number_notna _ Hd).
  unfold py_gt_float. rewrite (defined_number_is_number _ Hd).
  rewrite bind_ret, H12, bind_ret, H9, bind_ret, H6. reflexivity.
Qed.

(** C1, as amended.  For every defined float, and every [int] that
    converts to a float, [format_mcap] picks the suffix by the strict
    comparisons [> 1e12], [> 1e9], [> 1e6] in this order and returns the
    value divided by the threshold, at two decimals, with [" T"], [" B"]
    or [" M"].  The comparisons are those of the exact values, for an
    [int] and for a float alike.  Exactly [1e12] gives ["1000.00 B"],
    [2.5e12] gives ["2.50 T"], [3.4e9] gives ["3.40 B"] and [7.1e6]
    gives ["7.10 M"]. *)
Theorem format_mcap_strict_thresholds :
  (forall v x, as_float v = Some x ->
     (exceeds v f_1e12 = true ->
        outcome (format_mcap (OScalar v)) = inr (scaled_text x f_1e12 " T")) /\
     (exceeds v f_1e12 = false -> exceeds v f_1e9 = true ->
        outcome (format_mcap (OScalar v)) = inr (scaled_text x f_1e9 " B")) /\
     (exceeds v f_1e12 = false -> exceeds v f_1e9 = false -> exceeds v f_1e6 = true ->
        outcome (format_mcap (OScalar v)) = inr (scaled_text x f_1e6 " M"))) /\
  (forall z, exceeds (PInt z) f_1e12 = (10 ^ 12 <? z) /\
             exceeds (PInt z) f_1e9 = (10 ^ 9 <? z) /\
             exceeds (PInt z) f_1e6 = (10 ^ 6 <? z)) /\
  (forall x, valid x = true ->
             exceeds (PFloat x) f_1e12 = exactly_above (10 ^ 12) x /\
             exceeds (PFloat x) f_1e9 = exactly_above (10 ^ 9) x /\
             exceeds (PFloat x) f_1e6 = exactly_above (10 ^ 6) x) /\
  exceeds (PFloat f_1e12) f_1e12 = false /\
  outcome (format_mcap (OScalar (PFloat f_1e12))) = inr "1000.00 B"%string /\
  outcome (format_mcap (OScalar (PFloat f_2_5e12))) = inr "2.50 T"%string /\
  outcome (format_mcap (OScalar (PFloat f_3_4e9))) = inr "3.40 B"%string /\
  outcome (format_mcap (OScalar (PFloat f_7_1e6))) = inr "7.10 M"%string.
Proof.
  split; [| split; [| split; [| repeat split; vm_compute; reflexivity]]].
  - intros v x Hv. pose proof (format_mcap_number v x Hv) as H.
    repeat split.
    + intros H12. now rewrite H12 in H.
    + intros H12 H9. now rewrite H12, H9 in H.
    + intros H12 H9 H6. now rewrite H12, H9, H6 in H.
  - intros z. rewrite exceeds_int_1e12, exceeds_int_1e9, exceeds_int_1e6. auto.
  - intros x Hx.
    rewrite (exceeds_float_1e12 x Hx), (exceeds_float_1e9 x Hx), (exceeds_float_1e6 x Hx).
    auto.
Qed.

Lemma format_mcap_strict_thresholds_witness :
  (as_float (PFloat f_2_5e12) = Some f_2_5e12 /\
   exceeds (PFloat f_2_5e12) f_1e12 = true /\
   outcome (format_mcap (OScalar (PFloat f_2_5e12))) =
     inr (scaled_text f_2_5e12 f_1e12 " T")) /\
  (as_float (PFloat f_1e12) = Some f_1e12 /\
   exceeds (PFloat f_1e12) f_1e12 = false /\
   exceeds (PFloat f_1e12) f_1e9 = true /\
   outcome (format_mcap (OScalar (PFloat f_1e12))) =
     inr (scaled_text f_1e12 f_1e9 " B")) /\
  (as_float (PInt 7100000) = Some f_7_1e6 /\
   exceeds (PInt 7100000) f_1e12 = false /\
   exceeds (PInt 7100000) f_1e9 = false /\
   exceeds (PInt 7100000) f_1e6 = true /\
   outcome (format_mcap (OScalar (PInt 7100000))) =
     inr (scaled_text f_7_1e6 f_1e6 " M")) /\
  (valid f_1e12 = true /\
   exceeds (PFloat f_1e12) f_1e12 = exactly_above (10 ^ 12) f_1e12).
Proof.
  destruct format_mcap_strict_thresholds as (Hbranch & _ & Hexact & _).
  split; [| split; [| split]].
  - split; [reflexivity | split; [reflexivity |]].
    exact (proj1 (Hbranch (PFloat f_2_5e12) f_2_5e12 eq_refl) eq_refl).
  - split; [reflexivity | split; [reflexivity | split; [reflexivity |]]].
    exact (proj1 (proj2 (Hbranch (PFloat f_1e12) f_1e12 eq_refl)) eq_refl eq_refl).
  - split; [reflexivity | split; [reflexivity | split; [reflexivity | split; [reflexivity |]]]].
    exact (proj2 (proj2 (Hbranch (PInt 7100000) f_7_1e6 eq_refl)) eq_refl eq_refl eq_refl).
  - split; [reflexivity |].
    exact (proj1 (Hexact f_1e12 eq_refl)).
Defined.

(** C1 does not hold of every defined number: the [int] [10^400] exceeds
    [1e12], and its division by [1e12] raises [OverflowError] where the
    claim promises the text of the quotient. *)
Lemma format_mcap_huge_int_raises :
  defined_number (PInt (10 ^ 400)) = true /\
  exceeds (PInt (10 ^ 400)) f_1e12 = true /\
  outcome (format_mcap (OScalar (PInt (10 ^ 400)))) = inl OverflowError.
Proof. repeat split; vm_compute; reflexivity. Qed.



Lemma undefined_isna v : undefined v <-> pd_isna v = true.
Proof.
  split.
  - intros [-> | ->]; reflexivity.
  - destruct v as [| z | f | s]; simpl; try discriminate.
    + now left.
    + destruct f; try discriminate. now right.
Qed.

(** C8.  Whenever the value, taken through [safe_scalar], is undefined
    ([None] or NaN), [format_mcap] returns the literal ["NA"]. *)
Theorem format_mcap_undefined_NA (val : pyobj) :
  undefined (safe_scalar val) -> format_mcap val = ret "NA"%string.
Proof.
  intros H. apply undefined_isna in H.
  unfold format_mcap. now rewrite H.
Qed.

Lemma format_mcap_undefined_NA_witness :
  undefined (safe_scalar (OScalar np_nan)) /\
  format_mcap (OScalar np_nan) = ret "NA"%string.
Proof.
  split; [right; reflexivity |].
  apply (format_mcap_undefined_NA (OScalar np_nan)). right. reflexivity.
Defined.



(** ** [compute_returns] *)

Lemma iloc1_first (c : timestamp * pyval) (s : series) : iloc1 (c :: s) 0 = ret [c].
Proof.
  unfold iloc1. cbn [Z.ltb Z.compare].
  replace ((0 <=? 0) && (0 <? Z.of_nat (List.length (c :: s)))) with true.
  - reflexivity.
  - symmetry. apply andb_true_iff. split; [reflexivity |].
    apply Z.ltb_lt. simpl List.length. lia.
Qed.

Lemma nth_error_last {A} (l : list A) (d : A) :
  l <> [] -> nth_error l (Nat.pred (List.length l)) = Some (last l d).
Proof.
  induction l as [| a l IH]; [congruence |].
  intros _. destruct l as [| b l]; [reflexivity |].
  change (nth_error (b :: l) (Nat.pred (List.length (b :: l))) = Some (last (b :: l) d)).
  apply IH. discriminate.
Qed.

Lemma iloc1_last (s : series) (d : timestamp * pyval) :
  s <> [] -> iloc1 s (-1) = ret [last s d].
Proof.
  intros Hne. unfold iloc1. cbn [Z.ltb Z.compare].
  assert (Hlen : (0 < List.length s)%nat)
    by (destruct s; [congruence | simpl; lia]).
  replace ((0 <=? Z.of_nat (List.length s) + -1)
           && (Z.of_nat (List.length s) + -1 <? Z.of_nat (List.length s))) with true.
  - replace (Z.to_nat (Z.of_nat (List.length s) + -1)) with (Nat.pred (List.length s)) by lia.
    now rewrite (nth_error_last s d Hne).
  - symmetry. apply andb_true_iff. split; [apply Z.leb_le | apply Z.ltb_lt]; lia.
Qed.

(** Past the early returns, [compute_returns] is its guarded division on
    the first and the last remaining value. *)
Lemma compute_returns_remaining df c s :
  remaining_close df = Some (c :: s) ->
  compute_returns df =
  (ok <- usable_base (snd c) ;;
   if ok then try_except (return_percent (snd (last (c :: s) c)) (snd c))
                         (fun _ => ret np_nan)
   else ret np_nan).
Proof.
  unfold remaining_close, compute_returns, df_getitem.
  destruct (df_empty df); [discriminate |].
  destruct (find_column "Close" (df_columns df)) as [col |]; [| discriminate].
  intros H. injection H as H. rewrite bind_ret, H. cbn [series_empty].
  rewrite iloc1_first, bind_ret.
  rewrite (iloc1_last (c :: s) c) by discriminate. rewrite bind_ret.
  destruct c as [t0 v0]. cbn [safe_scalar snd].
  destruct (last ((t0, v0) :: s) (t0, v0)) as [t1 v1]. reflexivity.
Qed.

Lemma dropna_notna (col : series) (c : timestamp * pyval) :
  In c (dropna col) -> pd_notna (snd c) = true.
Proof. unfold dropna. intros H. apply filter_In in H. tauto. Qed.

Lemma remaining_close_notna df s c :
  remaining_close df = Some s -> In c s -> pd_notna (snd c) = true.
Proof.
  unfold remaining_close.
  destruct (df_empty df); [discriminate |].
  destruct (find_column "Close" (df_columns df)); [| discriminate].
  intros H. injection H as <-. apply dropna_notna.
Qed.

(** The test against zero is the absolute tolerance alone: [|x| <= 1e-08]. *)
Lemma isclose_zero_tolerance x : isclose x f_0 = leb (abs x) f_1e_8.
Proof.
  destruct x as [s | s | | s m e]; try (destruct s; reflexivity); try reflexivity.
  destruct s; unfold isclose, abs, SFabs, sub, SFsub, f_0;
    change (add f_1e_8 (mul f_1e_5 (S754_zero false))) with f_1e_8;
    cbn [is_finite eqb SFeqb SFcompare]; now rewrite andb_true_r, orb_false_r.
Qed.

Lemma isclose_zero_of_zero x : is_zero x = true -> isclose x f_0 = true.
Proof. destruct x as [s | s | | s m e]; try discriminate. now destruct s. Qed.

Lemma usable_base_events v : events (usable_base v) = [].
Proof.
  unfold usable_base. destruct (pd_notna v); [| reflexivity].
  destruct v as [| z | f | s]; try reflexivity.
  cbn [np_isclose_zero]. now destruct ((- 2 ^ 63 <=? z) && (z <? 2 ^ 64)).
Qed.

Lemma usable_base_nonzero v :
  outcome (usable_base v) = inr true -> zero_divisor v = false.
Proof.
  unfold usable_base. destruct (pd_notna v); [| discriminate].
  destruct v as [| z | f | s]; try discriminate; cbn [np_isclose_zero zero_divisor].
  - destruct ((- 2 ^ 63 <=? z) && (z <? 2 ^ 64)); [| discriminate].
    rewrite bind_ret. destruct (Z.eqb_spec z 0) as [-> |]; [discriminate | reflexivity].
  - rewrite bind_ret. destruct (is_zero f) eqn:Hz; [| reflexivity].
    now rewrite (isclose_zero_of_zero f Hz).
Qed.

Lemma to_float_events v : events (to_float v) = [].
Proof.
  destruct v as [| z | f | s]; try reflexivity.
  cbn [to_float]. now destruct (is_infinite (of_Z z)).
Qed.

Lemma py_truediv_events a b : events (py_truediv a b) = [EvDiv a b].
Proof.
  unfold py_truediv. rewrite events_bind. cbn [emit events outcome fst snd app].
  f_equal.
  destruct a as [| x | x | x], b as [| y | y | y]; cbn [is_number andb]; try reflexivity.
  - destruct (y =? 0); [reflexivity |]. now destruct (is_infinite (div_Z x y)).
  - cbn [to_float]. destruct (is_infinite (of_Z x)); [reflexivity |].
    rewrite !bind_ret. now destruct (is_zero y).
  - cbn [to_float]. rewrite bind_ret.
    destruct (is_infinite (of_Z y)); [reflexivity |].
    rewrite bind_ret. now destruct (is_zero (of_Z y)).
  - cbn [to_float]. rewrite !bind_ret. now destruct (is_zero y).
Qed.

Lemma py_sub_events a b : events (py_sub a b) = [].
Proof.
  destruct a as [| x | x | x], b as [| y | y | y]; cbn [py_sub is_number andb]; try reflexivity;
    rewrite events_bind, to_float_events; cbn [app];
    match goal with |- match outcome ?m with _ => _ end = _ =>
      destruct (outcome m); [reflexivity |] end;
    rewrite events_bind, to_float_events; cbn [app];
    match goal with |- match outcome ?m with _ => _ end = _ =>
      now destruct (outcome m) end.
Qed.

Lemma py_mul_float_events a c : events (py_mul_float a c) = [].
Proof.
  destruct a as [| x | x | x]; cbn [py_mul_float]; try reflexivity;
    rewrite events_bind, to_float_events; cbn [app];
    match goal with |- match outcome ?m with _ => _ end = _ =>
      now destruct (outcome m) end.
Qed.

Lemma return_percent_events e s : events (return_percent e s) = [EvDiv e s].
Proof.
  unfold return_percent.
  rewrite events_bind, py_truediv_events.
  destruct (outcome (py_truediv e s)) as [ex | q]; [reflexivity |].
  rewrite events_bind, py_sub_events. cbn [app].
  destruct (outcome (py_sub q (PInt 1))) as [ex | d]; [reflexivity |].
  now rewrite py_mul_float_events.
Qed.

Lemma usable_base_float s :
  is_nan s = false -> usable_base (PFloat s) = ret (negb (isclose s f_0)).
Proof.
  intros Hs. unfold usable_base, pd_notna. cbn [pd_isna np_isclose_zero].
  rewrite Hs. cbn [negb]. now rewrite bind_ret.
Qed.

Lemma usable_base_raises v e : outcome (usable_base v) = inl e -> e = TypeError.
Proof.
  unfold usable_base. destruct (pd_notna v); [| discriminate].
  destruct v as [| z | f | s]; cbn [np_isclose_zero].
  - rewrite bind_raise. cbn. congruence.
  - destruct ((- 2 ^ 63 <=? z) && (z <? 2 ^ 64)).
    + rewrite bind_ret. discriminate.
    + rewrite bind_raise. cbn. congruence.
  - rewrite bind_ret. discriminate.
  - rewrite bind_raise. cbn. congruence.
Qed.

Lemma np_isclose_zero_true v :
  outcome (np_isclose_zero v) = inr true -> usable_base v = ret false.
Proof.
  unfold usable_base. destruct (pd_notna v); [| reflexivity].
  destruct v as [| z | f | s]; cbn [np_isclose_zero]; try discriminate.
  - destruct ((- 2 ^ 63 <=? z) && (z <? 2 ^ 64)); [| discriminate].
    cbn [ret outcome snd]. intros H. injection H as ->. now rewrite bind_ret.
  - cbn [ret outcome snd]. intros H. injection H as ->. now rewrite bind_ret.
Qed.

(** The percentage on floats: three roundings, and nothing raises when
    the divisor is not zero. *)
Lemma return_percent_float e s :
  is_zero s = false ->
  return_percent (PFloat e) (PFloat s) =
  ([EvDiv (PFloat e) (PFloat s)], inr (PFloat (mul (sub (div e s) f_1) f_100))).
Proof.
  intros Hs.
  assert (Hdiv : py_truediv (PFloat e) (PFloat s) =
                 ([EvDiv (PFloat e) (PFloat s)], inr (PFloat (div e s)))).
  { unfold py_truediv, emit. cbn [is_number andb to_float].
    rewrite !bind_ret, Hs. reflexivity. }
  assert (Hone : to_float (PInt 1) = ret f_1) by reflexivity.
  unfold return_percent. rewrite Hdiv, bind_value.
  cbn [py_sub is_number andb]. rewrite Hone. cbn [to_float]. rewrite !bind_ret.
  cbn [py_mul_float to_float]. rewrite bind_ret. reflexivity.
Qed.




(** The result of [compute_returns] is computed without any division, or
    with the one division of the guarded branch. *)
Lemma compute_returns_events df :
  events (compute_returns df) = [] \/
  exists c s, remaining_close df = Some (c :: s) /\
              outcome (usable_base (snd c)) = inr true /\
              events (compute_returns df) = [EvDiv (snd (last (c :: s) c)) (snd c)].
Proof.
  destruct (remaining_close df) as [[| c s] |] eqn:Hrem.
  - left. revert Hrem. unfold remaining_close, compute_returns, df_getitem.
    destruct (df_empty df); [discriminate |].
    destruct (find_column "Close" (df_columns df)); [| discriminate].
    intros H. injection H as H. now rewrite bind_ret, H.
  - rewrite (compute_returns_remaining df c s Hrem).
    rewrite events_bind, usable_base_events. cbn [app].
    destruct (outcome (usable_base (snd c))) as [ex | [|]] eqn:Hok.
    + now left.
    + right. exists c, s. split; [reflexivity | split; [exact Hok |]].
      rewrite events_try_except, return_percent_events.
      now destruct (outcome (return_percent (snd (last (c :: s) c)) (snd c))).
    + now left.
  - left. revert Hrem. unfold remaining_close, compute_returns, df_getitem.
    destruct (df_empty df); [reflexivity |].
    now destruct (find_column "Close" (df_columns df)).
Qed.

Lemma compute_returns_raises df e :
  outcome (compute_returns df) = inl e -> e = TypeError \/ e = KeyError.
Proof.
  destruct (remaining_close df) as [[| c s] |] eqn:Hrem.
  - revert Hrem. unfold remaining_close, compute_returns, df_getitem.
    destruct (df_empty df); [discriminate |].
    destruct (find_column "Close" (df_columns df)); [| discriminate].
    intros H. injection H as H. rewrite bind_ret, H. discriminate.
  - rewrite (compute_returns_remaining df c s Hrem), outcome_bind.
    destruct (outcome (usable_base (snd c))) as [ex | [|]] eqn:Hok.
    + intros H. injection H as <-. left. now apply usable_base_raises in Hok.
    + destruct (try_except_never_raises
                  (return_percent (snd (last (c :: s) c)) (snd c)) np_nan) as [r Hr].
      rewrite Hr. discriminate.
    + discriminate.
  - revert Hrem. unfold remaining_close, compute_returns, df_getitem.
    destruct (df_empty df); [discriminate |].
    destruct (find_column "Close" (df_columns df)); [discriminate |].
    intros _. rewrite bind_raise. cbn. intros H. injection H as <-. now right.
Qed.

(** C3.  [compute_returns] returns NaN, and has executed no division,
    when the frame is empty, when nothing is left of the closing column
    after [dropna], and when the first value left is undefined or within
    the absolute tolerance [1e-08] of zero.  No run ever divides by
    zero, and no run ends in [ZeroDivisionError].  The series [0, 50] and
    the empty series give NaN. *)
Theorem compute_returns_undefined :
  (forall df, df_empty df = true -> compute_returns df = ([], inr np_nan)) /\
  (forall df, remaining_close df = Some [] -> compute_returns df = ([], inr np_nan)) /\
  (forall df c s, remaining_close df = Some (c :: s) ->
     undefined (snd c) \/ outcome (np_isclose_zero (snd c)) = inr true ->
     compute_returns df = ([], inr np_nan)) /\
  (forall x, isclose x f_0 = leb (abs x) f_1e_8) /\
  (forall df num den, In (EvDiv num den) (events (compute_returns df)) ->
     zero_divisor den = false) /\
  (forall df, outcome (compute_returns df) <> inl ZeroDivisionError) /\
  compute_returns (close_frame [PFloat f_0; PFloat f_50]) = ([], inr np_nan) /\
  compute_returns (close_frame []) = ([], inr np_nan).
Proof.
  repeat match goal with |- _ /\ _ => split end.
  - intros df H. unfold compute_returns. now rewrite H.
  - intros df. unfold remaining_close, compute_returns, df_getitem.
    destruct (df_empty df); [discriminate |].
    destruct (find_column "Close" (df_columns df)); [| discriminate].
    intros H. injection H as H. now rewrite bind_ret, H.
  - intros df c s Hrem Hc.
    rewrite (compute_returns_remaining df c s Hrem).
    assert (Hu : usable_base (snd c) = ret false).
    { destruct Hc as [Hc | Hc].
      - apply undefined_isna in Hc. unfold usable_base, pd_notna. now rewrite Hc.
      - now apply np_isclose_zero_true. }
    now rewrite Hu, bind_ret.
  - exact isclose_zero_tolerance.
  - intros df num den Hin.
    destruct (compute_returns_events df) as [H | (c & s & _ & Hok & H)];
      rewrite H in Hin.
    + destruct Hin.
    + destruct Hin as [Hin | []]. injection Hin as _ <-.
      now apply usable_base_nonzero.
  - intros df H. apply compute_returns_raises in H. destruct H; discriminate.
  - vm_compute. reflexivity.
  - vm_compute. reflexivity.
Qed.

Lemma compute_returns_undefined_witness :
  (df_empty empty_frame = true /\
   compute_returns empty_frame = ([], inr np_nan)) /\
  (remaining_close (close_frame [PNone; np_nan]) = Some [] /\
   compute_returns (close_frame [PNone; np_nan]) = ([], inr np_nan)) /\
  (remaining_close (close_frame [PFloat f_0; PFloat f_50]) =
     Some [(0, PFloat f_0); (1, PFloat f_50)] /\
   outcome (np_isclose_zero (PFloat f_0)) = inr true /\
   compute_returns (close_frame [PFloat f_0; PFloat f_50]) = ([], inr np_nan)) /\
  (In (EvDiv (PFloat f_110) (PFloat f_100))
      (events (compute_returns (close_frame [PFloat f_100; PFloat f_110]))) /\
   zero_divisor (PFloat f_100) = false).
Proof.
  destruct compute_returns_undefined as (Hempty & Hnone & Hzero & _ & Hdiv & _).
  split; [| split; [| split]].
  - split; [reflexivity |]. exact (Hempty empty_frame eq_refl).
  - split; [reflexivity |]. exact (Hnone (close_frame [PNone; np_nan]) eq_refl).
  - split; [reflexivity | split; [reflexivity |]].
    exact (Hzero (close_frame [PFloat f_0; PFloat f_50]) (0, PFloat f_0) [(1, PFloat f_50)]
             eq_refl (or_intror eq_refl)).
  - split; [left; reflexivity |].
    exact (Hdiv (close_frame [PFloat f_100; PFloat f_110]) (PFloat f_110) (PFloat f_100)
             (or_introl eq_refl)).
Defined.

(** A string at the head of the remaining prices reaches [np.isclose],
    which is outside the [try], and its [TypeError] leaves the
    function. *)
Lemma compute_returns_str_start df t x s :
  remaining_close df = Some ((t, PStr x) :: s) ->
  compute_returns df = ([], inl TypeError).
Proof.
  intros Hrem. rewrite (compute_returns_remaining df _ _ Hrem). reflexivity.
Qed.

(** Once the guard has let the first value through, nothing that the
    arithmetic raises leaves the function. *)
Lemma compute_returns_guarded_total df c s :
  remaining_close df = Some (c :: s) ->
  outcome (usable_base (snd c)) = inr true ->
  exists r, outcome (compute_returns df) = inr r.
Proof.
  intros Hrem Hok. rewrite (compute_returns_remaining df c s Hrem), outcome_bind, Hok.
  apply try_except_never_raises.
Qed.

(** C4 fails on the code.  With a string as the first closing value the
    [TypeError] of [np.isclose("abc", 0)] is raised before the [try] is
    entered and propagates to the caller; the same string as the last
    value is caught and gives NaN. *)
Theorem compute_returns_propagates_TypeError :
  compute_returns (close_frame [PStr "abc"; PFloat f_110]) = ([], inl TypeError) /\
  compute_returns (close_frame [PFloat f_100; PStr "abc"]) =
    ([EvDiv (PStr "abc") (PFloat f_100)], inr np_nan).
Proof. split; vm_compute; reflexivity. Qed.

(** ** The chart loop *)

Lemma div_same_exact (m : positive) :
  Z.div_eucl (Z.shiftl (Zpos m) 53) (Zpos m) = (2 ^ 53, 0).
Proof.
  rewrite Z.shiftl_mul_pow2 by lia.
  rewrite (Z.mul_comm (Zpos m) (2 ^ 53)).
  pose proof (Z_div_mult (2 ^ 53) (Zpos m) ltac:(lia)) as Hq.
  pose proof (Z_mod_mult (2 ^ 53) (Zpos m)) as Hr.
  unfold Z.div, Z.modulo in Hq, Hr.
  destruct (Z.div_eucl (2 ^ 53 * Zpos m) (Zpos m)) as [q r].
  now subst.
Qed.

(** A finite float divided by itself is exactly one. *)
Lemma div_self (s : bool) (m : positive) (e : Z) :
  div (S754_finite s m e) (S754_finite s m e) = f_1.
Proof.
  unfold div, SFdiv, SFdiv_core_binary. cbn [Zdigits2].
  replace (Zpos (digits2_pos m) + e - (Zpos (digits2_pos m) + e)) with 0 by lia.
  replace (e - e) with 0 by lia.
  change (Z.min (fexp prec emax 0) 0) with (-53).
  change (0 - -53) with 53.
  cbv iota.
  change (IntDef.Z.div_eucl (IntDef.Z.shiftl (Zpos m) 53) (Zpos m))
    with (Z.div_eucl (Z.shiftl (Zpos m) 53) (Zpos m)).
  rewrite div_same_exact.
  replace (new_location (Zpos m) 0) with loc_Exact
    by (unfold new_location; now destruct (Z.even (Zpos m))).
  rewrite xorb_nilpotent. reflexivity.
Qed.

Section ChartProperties.

Variable parse_numeric : string -> option float64.
Variable plot_error : string -> series -> option exn.

(** After the cleaning every cell is a float and none is NaN. *)
Lemma clean_floats (col : series) : Forall is_float_cell (clean parse_numeric col).
Proof.
  apply Forall_forall. intros c Hc. unfold clean, dropna in Hc.
  apply filter_In in Hc. destruct Hc as [Hin Hna].
  unfold to_numeric in Hin. apply in_map_iff in Hin.
  destruct Hin as [[t v] [<- _]]. cbn [fst snd] in *.
  unfold pd_notna in Hna.
  destruct v as [| z | f | s]; cbn [to_numeric_cell] in *.
  - discriminate.
  - exists (of_Z z). split; [reflexivity |]. cbn [pd_isna] in Hna. now destruct (is_nan (of_Z z)).
  - exists f. split; [reflexivity |]. cbn [pd_isna] in Hna. now destruct (is_nan f).
  - destruct (parse_numeric s) as [f |]; [| discriminate].
    exists f. split; [reflexivity |]. cbn [pd_isna] in Hna. now destruct (is_nan f).
Qed.

Lemma cleaned_close_floats df s : cleaned_close parse_numeric df = Some s -> Forall is_float_cell s.
Proof.
  unfold cleaned_close. destruct (find_column "Close" (df_columns df)); [| discriminate].
  intros H. injection H as <-. apply clean_floats.
Qed.

Lemma series_mapM_outcome (f : pyval -> M pyval) (g : pyval -> pyval) (s : series) :
  Forall (fun c => outcome (f (snd c)) = inr (g (snd c))) s ->
  outcome (series_mapM f s) = inr (map (fun c => (fst c, g (snd c))) s).
Proof.
  induction 1 as [| [t v] s Hv _ IH]; [reflexivity |].
  cbn [series_mapM map fst snd] in *.
  rewrite outcome_bind, Hv, outcome_bind, IH. reflexivity.
Qed.

Lemma rebase_outcome (b : float64) (s : series) :
  is_zero b = false -> Forall is_float_cell s ->
  outcome (rebase s (PFloat b)) = inr (map (rebase_cell b) s).
Proof.
  intros Hb Hs. unfold rebase. rewrite outcome_bind.
  rewrite (series_mapM_outcome _
             (fun v => match v with PFloat x => PFloat (div x b) | o => o end)).
  - rewrite (series_mapM_outcome _
               (fun v => match v with PFloat x => PFloat (mul x f_100) | o => o end)).
    + f_equal. rewrite map_map. apply map_ext_in. intros [t v] Hin.
      rewrite Forall_forall in Hs. destruct (Hs _ Hin) as (x & Hx & _).
      cbn [fst snd] in *. subst v. reflexivity.
    + apply Forall_forall. intros [t v] Hin. apply in_map_iff in Hin.
      destruct Hin as [[t' v'] [Heq Hin]]. rewrite Forall_forall in Hs.
      destruct (Hs _ Hin) as (x & Hx & _). cbn [fst snd] in *. subst v'.
      injection Heq as _ <-. cbn [py_mul_float to_float]. now rewrite bind_ret.
  - apply Forall_forall. intros [t v] Hin. rewrite Forall_forall in Hs.
    destruct (Hs _ Hin) as (x & Hx & _). cbn [fst snd] in *. subst v.
    unfold py_truediv, emit. cbn [is_number andb to_float].
    rewrite !bind_ret, Hb, bind_value. reflexivity.
Qed.

Lemma build_relative df c s :
  cleaned_close parse_numeric df = Some (c :: s) ->
  build_chart_series parse_numeric "Relative Price" df =
  (ok <- usable_base (snd c) ;;
   series <- (if ok then rebase (c :: s) (snd c) else ret (c :: s)) ;;
   ret (Some (series, "Relative Price (%)"%string))).
Proof.
  unfold cleaned_close, build_chart_series, df_getitem.
  destruct (find_column "Close" (df_columns df)) as [col |]; [| discriminate].
  intros H. injection H as H. rewrite bind_ret, H. cbn [series_empty].
  change (String.eqb "Relative Price" "Relative Price") with true. cbv iota.
  rewrite iloc1_first, bind_ret. destruct c as [t0 v0]. reflexivity.
Qed.

Lemma build_other df c s chart_type :
  cleaned_close parse_numeric df = Some (c :: s) ->
  String.eqb chart_type "Relative Price" = false ->
  build_chart_series parse_numeric chart_type df = ret (Some (c :: s, "Actual Price"%string)).
Proof.
  unfold cleaned_close, build_chart_series, df_getitem.
  destruct (find_column "Close" (df_columns df)) as [col |]; [| discriminate].
  intros H Hct. injection H as H. rewrite bind_ret, H, Hct. reflexivity.
Qed.

Lemma build_empty df chart_type :
  cleaned_close parse_numeric df = Some [] -> build_chart_series parse_numeric chart_type df = ret None.
Proof.
  unfold cleaned_close, build_chart_series, df_getitem.
  destruct (find_column "Close" (df_columns df)) as [col |]; [| discriminate].
  intros H. injection H as H. now rewrite bind_ret, H.
Qed.

Lemma build_no_column df chart_type :
  cleaned_close parse_numeric df = None -> build_chart_series parse_numeric chart_type df = raise KeyError.
Proof.
  unfold cleaned_close, build_chart_series, df_getitem.
  destruct (find_column "Close" (df_columns df)) as [col |]; [discriminate |].
  reflexivity.
Qed.

Lemma rebase_first_is_100 (b : float64) (t : timestamp) :
  is_finite b = true -> is_zero b = false ->
  rebase_cell b (t, PFloat b) = (t, PFloat f_100).
Proof.
  destruct b as [s | s | | s m e]; try discriminate. intros _ _.
  unfold rebase_cell. cbn [fst snd]. now rewrite div_self.
Qed.

(** C5, as amended.  In relative mode the first cleaned value is the
    base.  When it is not within [1e-08] of zero, every cleaned value
    [v] becomes [(v / base) * 100.0]; the series then starts at exactly
    100 if the base is finite.  When the base is within [1e-08] of zero
    (or undefined) the cleaned series is returned as it is and no
    division takes place.  [50, 75, 100] becomes [100, 150, 200]. *)
Theorem relative_rebases_on_first :
  (forall df t0 b rest,
     cleaned_close parse_numeric df = Some ((t0, PFloat b) :: rest) ->
     isclose b f_0 = false ->
     Forall is_float_cell ((t0, PFloat b) :: rest) /\
     outcome (build_chart_series parse_numeric "Relative Price" df) =
       inr (Some (map (rebase_cell b) ((t0, PFloat b) :: rest), "Relative Price (%)"%string)) /\
     (is_finite b = true -> rebase_cell b (t0, PFloat b) = (t0, PFloat f_100))) /\
  (forall df c s,
     cleaned_close parse_numeric df = Some (c :: s) ->
     undefined (snd c) \/ outcome (np_isclose_zero (snd c)) = inr true ->
     build_chart_series parse_numeric "Relative Price" df =
       ([], inr (Some (c :: s, "Relative Price (%)"%string)))) /\
  outcome (build_chart_series parse_numeric "Relative Price"
             (close_frame [PFloat f_50; PFloat f_75; PFloat f_100])) =
    inr (Some ([(0, PFloat f_100); (1, PFloat f_150); (2, PFloat f_200)],
               "Relative Price (%)"%string)) /\
  build_chart_series parse_numeric "Relative Price"
    (close_frame [PFloat f_0; PFloat f_75; PFloat f_100]) =
    ([], inr (Some ([(0, PFloat f_0); (1, PFloat f_75); (2, PFloat f_100)],
                    "Relative Price (%)"%string))).
Proof.
  split; [| split; [| split; vm_compute; reflexivity]].
  - intros df t0 b rest Hc Hb.
    pose proof (cleaned_close_floats df _ Hc) as Hfl.
    assert (Hz : is_zero b = false).
    { destruct (is_zero b) eqn:Hz; [| reflexivity].
      now rewrite (isclose_zero_of_zero b Hz) in Hb. }
    split; [exact Hfl | split].
    + rewrite (build_relative df _ _ Hc). cbn [snd].
      assert (Hnan : is_nan b = false).
      { apply Forall_inv in Hfl. destruct Hfl as (f & Hf & Hn).
        cbn [snd] in Hf. injection Hf as ->. exact Hn. }
      rewrite (usable_base_float b Hnan), Hb. cbn [negb]. rewrite bind_ret.
      rewrite outcome_bind, (rebase_outcome b _ Hz Hfl). reflexivity.
    + intros Hfin. now apply rebase_first_is_100.
  - intros df c s Hc Hu. rewrite (build_relative df c s Hc).
    assert (Hb : usable_base (snd c) = ret false).
    { destruct Hu as [Hu | Hu].
      - apply undefined_isna in Hu. unfold usable_base, pd_notna. now rewrite Hu.
      - now apply np_isclose_zero_true. }
    now rewrite Hb, !bind_ret.
Qed.

(** C9.  In actual mode the cleaned series is the series to draw, cell
    for cell, and no arithmetic is performed; drawn, it is the line of
    the ticker.  [50, 75, 100] stays [50, 75, 100]. *)
Theorem actual_passes_through :
  (forall df c s,
     cleaned_close parse_numeric df = Some (c :: s) ->
     build_chart_series parse_numeric "Actual Price" df =
       ([], inr (Some (c :: s, "Actual Price"%string)))) /\
  (forall df c s name ch,
     cleaned_close parse_numeric df = Some (c :: s) ->
     plot_error name (c :: s) = None ->
     lines (chart_step parse_numeric plot_error "Actual Price" ch (name, df)) =
       lines ch ++ [(name, c :: s)]) /\
  build_chart_series parse_numeric "Actual Price"
    (close_frame [PFloat f_50; PFloat f_75; PFloat f_100]) =
    ([], inr (Some ([(0, PFloat f_50); (1, PFloat f_75); (2, PFloat f_100)],
                    "Actual Price"%string))).
Proof.
  split; [| split; [| vm_compute; reflexivity]].
  - intros df c s Hc. now apply build_other.
  - intros df c s name ch Hc Hp. unfold chart_step.
    rewrite (build_other df c s "Actual Price" Hc eq_refl).
    cbn [outcome ret snd]. now rewrite Hp.
Qed.

(** One turn of the loop adds to the chart what it draws and reports on
    fresh axes; it reads nothing of what earlier turns left. *)
Lemma chart_step_lines chart_type c item :
  lines (chart_step parse_numeric plot_error chart_type c item) =
  lines c ++ lines (chart_step parse_numeric plot_error chart_type new_chart item).
Proof.
  unfold chart_step. destruct item as [s df].
  destruct (outcome (build_chart_series parse_numeric chart_type df))
    as [e | [[data label] |]]; cbn [st_error lines]; try now rewrite app_nil_r.
  destruct (plot_error s data); cbn [st_error add_line set_ylabel lines new_chart app];
    [now rewrite app_nil_r | reflexivity].
Qed.

Lemma chart_step_errors chart_type c item :
  errors (chart_step parse_numeric plot_error chart_type c item) =
  errors c ++ errors (chart_step parse_numeric plot_error chart_type new_chart item).
Proof.
  unfold chart_step. destruct item as [s df].
  destruct (outcome (build_chart_series parse_numeric chart_type df))
    as [e | [[data label] |]]; cbn [st_error errors new_chart app]; try reflexivity;
    try now rewrite app_nil_r.
  destruct (plot_error s data); cbn [st_error add_line set_ylabel errors new_chart app];
    [reflexivity | now rewrite app_nil_r].
Qed.

Lemma chart_loop_lines chart_type items c :
  lines (chart_loop parse_numeric plot_error chart_type items c) =
  lines c ++ flat_map (fun item =>
    lines (chart_step parse_numeric plot_error chart_type new_chart item)) items.
Proof.
  unfold chart_loop. revert c.
  induction items as [| item items IH]; intros c; cbn [fold_left flat_map].
  - now rewrite app_nil_r.
  - now rewrite IH, chart_step_lines, app_assoc.
Qed.

Lemma chart_loop_errors chart_type items c :
  errors (chart_loop parse_numeric plot_error chart_type items c) =
  errors c ++ flat_map (fun item =>
    errors (chart_step parse_numeric plot_error chart_type new_chart item)) items.
Proof.
  unfold chart_loop. revert c.
  induction items as [| item items IH]; intros c; cbn [fold_left flat_map].
  - now rewrite app_nil_r.
  - now rewrite IH, chart_step_errors, app_assoc.
Qed.

(** C7.  A ticker whose cleaned series is empty leaves the chart as it
    was.  An exception while the series is built, or while it is drawn,
    is turned into one error message for that ticker and leaves the
    lines as they were.  Either way the loop goes on: the lines and the
    messages of the whole loop are, ticker by ticker and in order, those
    that each ticker gives on its own. *)
Theorem chart_loop_isolates_tickers :
  (forall chart_type c s df,
     cleaned_close parse_numeric df = Some [] ->
     chart_step parse_numeric plot_error chart_type c (s, df) = c) /\
  (forall chart_type c s df e,
     outcome (build_chart_series parse_numeric chart_type df) = inl e ->
     chart_step parse_numeric plot_error chart_type c (s, df) = st_error s e c) /\
  (forall chart_type c s df data label e,
     outcome (build_chart_series parse_numeric chart_type df) = inr (Some (data, label)) ->
     plot_error s data = Some e ->
     chart_step parse_numeric plot_error chart_type c (s, df) =
       st_error s e (set_ylabel label c)) /\
  (forall chart_type before item after c,
     chart_loop parse_numeric plot_error chart_type (before ++ item :: after) c =
     chart_loop parse_numeric plot_error chart_type after
       (chart_step parse_numeric plot_error chart_type
          (chart_loop parse_numeric plot_error chart_type before c) item)) /\
  (forall chart_type items c,
     lines (chart_loop parse_numeric plot_error chart_type items c) =
       lines c ++ flat_map (fun item =>
         lines (chart_step parse_numeric plot_error chart_type new_chart item)) items /\
     errors (chart_loop parse_numeric plot_error chart_type items c) =
       errors c ++ flat_map (fun item =>
         errors (chart_step parse_numeric plot_error chart_type new_chart item)) items).
Proof.
  repeat match goal with |- _ /\ _ => split end.
  - intros chart_type c s df Hc. unfold chart_step.
    now rewrite (build_empty df chart_type Hc).
  - intros chart_type c s df e He. unfold chart_step. now rewrite He.
  - intros chart_type c s df data label e Hb Hp. unfold chart_step.
    now rewrite Hb, Hp.
  - intros chart_type before item after c. unfold chart_loop.
    now rewrite fold_left_app.
  - intros chart_type items c.
    split; [apply chart_loop_lines | apply chart_loop_errors].
Qed.

End ChartProperties.

(** ** The chart loop on concrete histories *)

Lemma relative_rebases_on_first_witness :
  (cleaned_close parse_nothing (close_frame [PFloat f_50; PFloat f_75; PFloat f_100]) =
     Some [(0, PFloat f_50); (1, PFloat f_75); (2, PFloat f_100)] /\
   isclose f_50 f_0 = false /\
   outcome (build_chart_series parse_nothing "Relative Price"
              (close_frame [PFloat f_50; PFloat f_75; PFloat f_100])) =
     inr (Some (map (rebase_cell f_50) [(0, PFloat f_50); (1, PFloat f_75); (2, PFloat f_100)],
                "Relative Price (%)"%string)) /\
   is_finite f_50 = true /\
   rebase_cell f_50 (0, PFloat f_50) = (0, PFloat f_100)) /\
  (outcome (np_isclose_zero (PFloat f_0)) = inr true /\
   build_chart_series parse_nothing "Relative Price"
     (close_frame [PFloat f_0; PFloat f_75]) =
     ([], inr (Some ([(0, PFloat f_0); (1, PFloat f_75)], "Relative Price (%)"%string)))).
Proof.
  destruct (relative_rebases_on_first parse_nothing) as (Hmap & Hraw & _).
  destruct (Hmap (close_frame [PFloat f_50; PFloat f_75; PFloat f_100])
              0 f_50 [(1, PFloat f_75); (2, PFloat f_100)] eq_refl eq_refl)
    as (_ & Hout & Hfirst).
  split.
  - split; [reflexivity | split; [reflexivity | split; [exact Hout |]]].
    split; [reflexivity | exact (Hfirst eq_refl)].
  - split; [reflexivity |].
    exact (Hraw (close_frame [PFloat f_0; PFloat f_75]) (0, PFloat f_0) [(1, PFloat f_75)]
             eq_refl (or_intror eq_refl)).
Defined.

(** C5 as written does not hold of every base that is defined and not
    zero: on the base [inf] the guard lets the division through, and the
    series starts at NaN, not at 100. *)
Lemma relative_infinite_base_starts_at_nan :
  pd_notna (PFloat f_inf) = true /\
  isclose f_inf f_0 = false /\
  outcome (build_chart_series parse_nothing "Relative Price"
             (close_frame [PFloat f_inf; PFloat f_75; PFloat f_100])) =
    inr (Some ([(0, np_nan); (1, PFloat f_0); (2, PFloat f_0)],
               "Relative Price (%)"%string)).
Proof. repeat split; vm_compute; reflexivity. Qed.

Lemma actual_passes_through_witness :
  cleaned_close parse_nothing (close_frame [PFloat f_50; PFloat f_75; PFloat f_100]) =
    Some [(0, PFloat f_50); (1, PFloat f_75); (2, PFloat f_100)] /\
  build_chart_series parse_nothing "Actual Price"
    (close_frame [PFloat f_50; PFloat f_75; PFloat f_100]) =
    ([], inr (Some ([(0, PFloat f_50); (1, PFloat f_75); (2, PFloat f_100)],
                    "Actual Price"%string))) /\
  plot_fails_for "X" "TCS.NS" [(0, PFloat f_50); (1, PFloat f_75); (2, PFloat f_100)] = None /\
  lines (chart_step parse_nothing (plot_fails_for "X") "Actual Price" new_chart
           ("TCS.NS"%string, close_frame [PFloat f_50; PFloat f_75; PFloat f_100])) =
    [("TCS.NS"%string, [(0, PFloat f_50); (1, PFloat f_75); (2, PFloat f_100)])].
Proof.
  destruct (actual_passes_through parse_nothing (plot_fails_for "X")) as (Hid & Hline & _).
  split; [reflexivity | split; [| split; [reflexivity |]]].
  - exact (Hid (close_frame [PFloat f_50; PFloat f_75; PFloat f_100])
             (0, PFloat f_50) [(1, PFloat f_75); (2, PFloat f_100)] eq_refl).
  - exact (Hline (close_frame [PFloat f_50; PFloat f_75; PFloat f_100])
             (0, PFloat f_50) [(1, PFloat f_75); (2, PFloat f_100)]
             "TCS.NS"%string new_chart eq_refl eq_refl).
Defined.

Lemma chart_loop_isolates_tickers_witness :
  chart_step parse_nothing (plot_fails_for "X") "Relative Price" new_chart
    ("B"%string, close_frame [PNone; np_nan]) = new_chart /\
  chart_step parse_nothing (plot_fails_for "X") "Relative Price" new_chart
    ("C"%string, empty_frame) = st_error "C" KeyError new_chart /\
  chart_step parse_nothing (plot_fails_for "X") "Relative Price" new_chart
    ("X"%string, close_frame [PFloat f_100]) =
    st_error "X" ValueError (set_ylabel "Relative Price (%)" new_chart) /\
  chart_loop parse_nothing (plot_fails_for "X") "Relative Price" sample_histories new_chart =
    mkChart (Some "Relative Price (%)"%string)
            [("A"%string, [(0, PFloat f_100); (1, PFloat f_150)]);
             ("D"%string, [(1, PFloat f_100); (2, PFloat f_200)])]
            [("C"%string, KeyError); ("X"%string, ValueError)].
Proof.
  pose proof (chart_loop_isolates_tickers parse_nothing (plot_fails_for "X"))
    as (Hskip & Hbuild & Hplot & _ & _).
  split; [| split; [| split]].
  - exact (Hskip "Relative Price"%string new_chart "B"%string
             (close_frame [PNone; np_nan]) eq_refl).
  - exact (Hbuild "Relative Price"%string new_chart "C"%string empty_frame KeyError eq_refl).
  - exact (Hplot "Relative Price"%string new_chart "X"%string (close_frame [PFloat f_100])
             [(0, PFloat f_100)] "Relative Price (%)"%string ValueError eq_refl eq_refl).
  - reflexivity.
Defined.

(** * Further properties of the script *)

(** ** [compute_returns] beyond the first and the last value *)

Lemma compute_returns_nothing_left df :
  remaining_close df = Some [] -> compute_returns df = ([], inr np_nan).
Proof.
  unfold remaining_close, compute_returns, df_getitem.
  destruct (df_empty df); [discriminate |].
  destruct (find_column "Close" (df_columns df)); [| discriminate].
  intros H. injection H as H. now rewrite bind_ret, H.
Qed.

Lemma last_map_snd {A B} (l : list (A * B)) (d : A * B) :
  snd (last l d) = last (map snd l) (snd d).
Proof.
  induction l as [| a l IH]; [reflexivity |].
  destruct l as [| b l]; [reflexivity |]. exact IH.
Qed.

Lemma compute_returns_same_ends df df' c s c' s' :
  remaining_close df = Some (c :: s) ->
  remaining_close df' = Some (c' :: s') ->
  snd c = snd c' ->
  snd (last (c :: s) c) = snd (last (c' :: s') c') ->
  compute_returns df = compute_returns df'.
Proof.
  intros H H' Hfirst Hlast.
  rewrite (compute_returns_remaining df c s H), (compute_returns_remaining df' c' s' H').
  now rewrite Hfirst, Hlast.
Qed.

(** X1.  The result depends on the first and on the last remaining
    closing value only: not on the values between them, not on the
    labels, not on the other columns. *)
Theorem compute_returns_first_last_only df df' c s c' s' :
  remaining_close df = Some (c :: s) ->
  remaining_close df' = Some (c' :: s') ->
  snd c = snd c' ->
  snd (last (c :: s) c) = snd (last (c' :: s') c') ->
  compute_returns df = compute_returns df'.
Proof. apply compute_returns_same_ends. Qed.

Lemma compute_returns_first_last_only_witness :
  compute_returns (close_frame [PFloat f_100; PFloat f_50; np_nan; PFloat f_110]) =
  compute_returns (mkDataFrame [7; 9] [("Open"%string, [PFloat f_0; PFloat f_0]);
                                        ("Close"%string, [PFloat f_100; PFloat f_110])]).
Proof.
  exact (compute_returns_first_last_only
           (close_frame [PFloat f_100; PFloat f_50; np_nan; PFloat f_110])
           (mkDataFrame [7; 9] [("Open"%string, [PFloat f_0; PFloat f_0]);
                                ("Close"%string, [PFloat f_100; PFloat f_110])])
           (0, PFloat f_100) [(1, PFloat f_50); (3, PFloat f_110)]
           (7, PFloat f_100) [(9, PFloat f_110)]
           eq_refl eq_refl eq_refl eq_refl).
Defined.

Lemma dropna_values (idx : list timestamp) (col : list pyval) :
  List.length idx = List.length col ->
  map snd (dropna (combine idx col)) = filter pd_notna col.
Proof.
  revert col. induction idx as [| t idx IH]; intros [| v col] Hlen;
    try discriminate; [reflexivity |].
  cbn [combine dropna filter snd]. injection Hlen as Hlen.
  destruct (pd_notna v); cbn [map snd]; [f_equal |]; now apply IH.
Qed.

Lemma compute_returns_values df df' s s' :
  remaining_close df = Some s -> remaining_close df' = Some s' ->
  map snd s = map snd s' ->
  compute_returns df = compute_returns df'.
Proof.
  intros H H' Hv.
  destruct s as [| c s], s' as [| c' s']; try discriminate.
  - now rewrite (compute_returns_nothing_left df H), (compute_returns_nothing_left df' H').
  - apply (compute_returns_same_ends df df' c s c' s' H H').
    + now injection Hv.
    + rewrite !last_map_snd, Hv. now injection Hv as ->.
Qed.

Lemma compute_returns_no_rows df col :
  find_column "Close" (df_columns df) = Some col ->
  List.length (df_index df) = List.length col ->
  filter pd_notna col = [] ->
  compute_returns df = ([], inr np_nan).
Proof.
  intros Hcol Hlen Hnil.
  destruct (df_empty df) eqn:He.
  - unfold compute_returns. now rewrite He.
  - apply compute_returns_nothing_left. unfold remaining_close. rewrite He, Hcol.
    f_equal. apply map_eq_nil with (f := snd). now rewrite dropna_values.
Qed.

(** X2.  Missing observations count for nothing, wherever they stand:
    two frames whose closing columns hold the same values once [None]
    and NaN are taken out give the same result, also when nothing is
    left. *)
Theorem compute_returns_ignores_missing df df' col col' :
  find_column "Close" (df_columns df) = Some col ->
  find_column "Close" (df_columns df') = Some col' ->
  List.length (df_index df) = List.length col ->
  List.length (df_index df') = List.length col' ->
  filter pd_notna col = filter pd_notna col' ->
  compute_returns df = compute_returns df'.
Proof.
  intros Hcol Hcol' Hlen Hlen' Hv.
  destruct (filter pd_notna col) as [| v vs] eqn:Hf.
  - rewrite (compute_returns_no_rows df col Hcol Hlen Hf).
    now rewrite (compute_returns_no_rows df' col' Hcol' Hlen').
  - assert (He : df_empty df = false).
    { unfold df_empty. destruct (df_index df) as [| t idx].
      - destruct col; [discriminate Hf | discriminate Hlen].
      - destruct (df_columns df); [discriminate Hcol | reflexivity]. }
    assert (He' : df_empty df' = false).
    { unfold df_empty. destruct (df_index df') as [| t idx].
      - destruct col'; [discriminate Hv | discriminate Hlen'].
      - destruct (df_columns df'); [discriminate Hcol' | reflexivity]. }
    apply (compute_returns_values df df'
             (dropna (combine (df_index df) col)) (dropna (combine (df_index df') col'))).
    + unfold remaining_close. now rewrite He, Hcol.
    + unfold remaining_close. now rewrite He', Hcol'.
    + now rewrite !dropna_values, Hf.
Qed.

Lemma compute_returns_ignores_missing_witness :
  compute_returns (close_frame [np_nan; PFloat f_100; PNone; PFloat f_110; np_nan]) =
  compute_returns (close_frame [PFloat f_100; PFloat f_110]).
Proof.
  exact (compute_returns_ignores_missing
           (close_frame [np_nan; PFloat f_100; PNone; PFloat f_110; np_nan])
           (close_frame [PFloat f_100; PFloat f_110])
           [np_nan; PFloat f_100; PNone; PFloat f_110; np_nan]
           [PFloat f_100; PFloat f_110]
           eq_refl eq_refl eq_refl eq_refl eq_refl).
Defined.

(** X3.  Equal first and last remaining prices, finite and not within
    [1e-08] of zero, give a return of exactly [0.0]; so does a history of
    one observation, which is its own first and last. *)
Theorem compute_returns_flat_is_zero df t0 x rest t1 :
  remaining_close df = Some ((t0, PFloat x) :: rest) ->
  last ((t0, PFloat x) :: rest) (t0, PFloat x) = (t1, PFloat x) ->
  is_finite x = true ->
  isclose x f_0 = false ->
  outcome (compute_returns df) = inr (PFloat f_0).
Proof.
  intros Hrem Hlast Hfin Hx.
  rewrite (compute_returns_remaining df _ _ Hrem), Hlast. cbn [snd].
  destruct x as [s | s | | s m e]; try discriminate.
  - now rewrite (isclose_zero_of_zero (S754_zero s) eq_refl) in Hx.
  - rewrite (usable_base_float (S754_finite s m e) eq_refl), Hx.
    cbn [negb]. rewrite bind_ret.
    rewrite (return_percent_float (S754_finite s m e) (S754_finite s m e) eq_refl).
    rewrite div_self. reflexivity.
Qed.

Lemma compute_returns_flat_is_zero_witness :
  outcome (compute_returns (close_frame [PFloat f_110])) = inr (PFloat f_0) /\
  outcome (compute_returns (close_frame [PFloat f_75; PFloat f_200; PFloat f_75])) =
    inr (PFloat f_0).
Proof.
  split.
  - exact (compute_returns_flat_is_zero (close_frame [PFloat f_110]) 0 f_110 [] 0
             eq_refl eq_refl eq_refl eq_refl).
  - exact (compute_returns_flat_is_zero
             (close_frame [PFloat f_75; PFloat f_200; PFloat f_75]) 0 f_75
             [(1, PFloat f_200); (2, PFloat f_75)] 2 eq_refl eq_refl eq_refl eq_refl).
Defined.

Lemma py_mul_float_is_float a c v :
  outcome (py_mul_float a c) = inr v -> exists f, v = PFloat f.
Proof.
  destruct a as [| z | x | s]; cbn [py_mul_float]; try discriminate.
  - cbn [to_float]. destruct (is_infinite (of_Z z)).
    + rewrite bind_raise. discriminate.
    + rewrite bind_ret. intros H. injection H as <-. eauto.
  - cbn [to_float]. rewrite bind_ret. intros H. injection H as <-. eauto.
Qed.

Lemma return_percent_is_float e s v :
  outcome (return_percent e s) = inr v -> exists f, v = PFloat f.
Proof.
  unfold return_percent. rewrite outcome_bind.
  destruct (outcome (py_truediv e s)) as [ex | q]; [discriminate |].
  rewrite outcome_bind.
  destruct (outcome (py_sub q (PInt 1))) as [ex | d]; [discriminate |].
  apply py_mul_float_is_float.
Qed.

Lemma compute_returns_float_frame df :
  df_empty df = true \/
  (exists col, find_column "Close" (df_columns df) = Some col /\ Forall float_or_none col) ->
  exists r, outcome (compute_returns df) = inr (PFloat r).
Proof.
  intros [He | (col & Hcol & Hall)].
  - exists nan. unfold compute_returns. now rewrite He.
  - destruct (df_empty df) eqn:He.
    { exists nan. unfold compute_returns. now rewrite He. }
    assert (Hrem : remaining_close df = Some (dropna (combine (df_index df) col)))
      by (unfold remaining_close; now rewrite He, Hcol).
    destruct (dropna (combine (df_index df) col)) as [| [t v] s] eqn:Hd.
    { exists nan. now rewrite (compute_returns_nothing_left df Hrem). }
    assert (Hin : In (t, v) (dropna (combine (df_index df) col)))
      by (rewrite Hd; now left).
    pose proof (dropna_notna _ _ Hin) as Hna. cbn [snd] in Hna.
    unfold dropna in Hin. apply filter_In in Hin. destruct Hin as [Hin _].
    apply in_combine_r in Hin. rewrite Forall_forall in Hall.
    destruct (Hall v Hin) as [-> | [f ->]]; [discriminate |].
    rewrite (compute_returns_remaining df _ _ Hrem). cbn [snd].
    assert (Hnan : is_nan f = false)
      by (unfold pd_notna in Hna; cbn [pd_isna] in Hna; now destruct (is_nan f)).
    rewrite (usable_base_float f Hnan), bind_ret.
    destruct (negb (isclose f f_0)); [| now exists nan].
    set (m := return_percent _ _).
    destruct (outcome m) as [ex | w] eqn:Hm.
    + exists nan. destruct m as [l [ex' | w]]; cbn in Hm; [reflexivity | discriminate].
    + destruct (return_percent_is_float _ _ _ Hm) as [f' ->]. exists f'.
      destruct m as [l [ex' | w]]; cbn in Hm; [discriminate |].
      injection Hm as ->. reflexivity.
Qed.

(** X4.  On an empty frame, and on a frame whose closing column holds
    floats and [None] only, [compute_returns] raises nothing and returns
    a float (NaN, or the percentage). *)
Theorem compute_returns_total_on_floats df :
  df_empty df = true \/
  (exists col, find_column "Close" (df_columns df) = Some col /\ Forall float_or_none col) ->
  exists r, outcome (compute_returns df) = inr (PFloat r).
Proof. apply compute_returns_float_frame. Qed.

Lemma compute_returns_total_on_floats_witness :
  exists r, outcome (compute_returns (close_frame [PNone; PFloat f_100; PFloat f_110])) =
            inr (PFloat r).
Proof.
  apply compute_returns_total_on_floats. right.
  exists [PNone; PFloat f_100; PFloat f_110]. split; [reflexivity |].
  constructor; [left; reflexivity |].
  constructor; [right; eexists; reflexivity |].
  constructor; [right; eexists; reflexivity | constructor].
Defined.

Lemma usable_base_raises_iff v :
  outcome (usable_base v) = inl TypeError <->
  pd_notna v = true /\ outcome (np_isclose_zero v) = inl TypeError.
Proof.
  unfold usable_base. destruct (pd_notna v).
  - rewrite outcome_bind.
    destruct (outcome (np_isclose_zero v)) as [e | b] eqn:Hc.
    + split; [intros H; split; [reflexivity | exact H] | intros [_ H]; exact H].
    + split; [discriminate | intros [_ H]; discriminate].
  - split; [discriminate | intros [H _]; discriminate].
Qed.

(** X5.  [compute_returns] raises in two situations and in no other:
    [KeyError] when the frame is not empty and has no ["Close"] column,
    [TypeError] when the first remaining closing value is one that
    [np.isclose] cannot take (the guard stands before the [try]). *)
Theorem compute_returns_raises_iff df e :
  outcome (compute_returns df) = inl e <->
  (e = KeyError /\ df_empty df = false /\
   find_column "Close" (df_columns df) = None) \/
  (e = TypeError /\ exists c s, remaining_close df = Some (c :: s) /\
                                outcome (np_isclose_zero (snd c)) = inl TypeError).
Proof.
  destruct (remaining_close df) as [[| c s] |] eqn:Hrem.
  - rewrite (compute_returns_nothing_left df Hrem). split; [discriminate |].
    intros [(_ & He & Hcol) | (_ & c & s & H & _)]; [| discriminate].
    revert Hrem. unfold remaining_close. rewrite He, Hcol. discriminate.
  - rewrite (compute_returns_remaining df c s Hrem), outcome_bind. split.
    + destruct (outcome (usable_base (snd c))) as [ex | [|]] eqn:Hok.
      * intros H. injection H as <-.
        pose proof (usable_base_raises _ _ Hok) as ->.
        right. split; [reflexivity |]. exists c, s. split; [reflexivity |].
        now apply usable_base_raises_iff in Hok.
      * destruct (try_except_never_raises
                    (return_percent (snd (last (c :: s) c)) (snd c)) np_nan) as [r Hr].
        rewrite Hr. discriminate.
      * discriminate.
    + intros [(_ & He & Hcol) | (-> & c' & s' & H & Hc)].
      * revert Hrem. unfold remaining_close. rewrite He, Hcol. discriminate.
      * injection H as <- <-.
        assert (Hok : outcome (usable_base (snd c)) = inl TypeError).
        { apply usable_base_raises_iff. split; [| exact Hc].
          apply (remaining_close_notna df _ c Hrem). now left. }
        now rewrite Hok.
  - revert Hrem. unfold remaining_close, compute_returns, df_getitem.
    destruct (df_empty df) eqn:He.
    + intros _. split; [discriminate |].
      intros [(_ & H & _) | (_ & c & s & H & _)]; discriminate.
    + destruct (find_column "Close" (df_columns df)) eqn:Hcol; [discriminate |].
      intros _. rewrite bind_raise. cbn [raise outcome snd]. split.
      * intros H. injection H as <-. left. auto.
      * intros [(-> & _) | (_ & c & s & H & _)]; [reflexivity | discriminate].
Qed.

Lemma compute_returns_raises_iff_witness :
  outcome (compute_returns (mkDataFrame [0] [("Open"%string, [PFloat f_100])])) = inl KeyError /\
  outcome (compute_returns (close_frame [PStr "n/a"; PFloat f_100])) = inl TypeError.
Proof.
  split.
  - apply (proj2 (compute_returns_raises_iff
                    (mkDataFrame [0] [("Open"%string, [PFloat f_100])]) KeyError)).
    left. repeat split.
  - apply (proj2 (compute_returns_raises_iff
                    (close_frame [PStr "n/a"; PFloat f_100]) TypeError)).
    right. split; [reflexivity |].
    exists (0, PStr "n/a"), [(1, PFloat f_100)]. split; reflexivity.
Defined.

(** ** [format_mcap]: what raises, and what ["NA"] means *)

Lemma py_truediv_overflow z c :
  is_infinite (of_Z z) = true ->
  outcome (py_truediv (PInt z) (PFloat c)) = inl OverflowError.
Proof.
  intros Hz. unfold py_truediv. rewrite outcome_bind. cbn [emit outcome snd].
  cbn [is_number andb to_float]. rewrite Hz, bind_raise. reflexivity.
Qed.

Lemma format_mcap_overflow z :
  is_infinite (of_Z z) = true -> exceeds (PInt z) f_1e6 = true ->
  outcome (format_mcap (OScalar (PInt z))) = inl OverflowError.
Proof.
  intros Hz H6. unfold format_mcap. cbn [safe_scalar pd_isna].
  unfold py_gt_float. cbn [is_number]. rewrite bind_ret.
  destruct (exceeds (PInt z) f_1e12).
  { now rewrite outcome_bind, (py_truediv_overflow z f_1e12 Hz). }
  rewrite bind_ret. destruct (exceeds (PInt z) f_1e9).
  { now rewrite outcome_bind, (py_truediv_overflow z f_1e9 Hz). }
  rewrite bind_ret, H6.
  now rewrite outcome_bind, (py_truediv_overflow z f_1e6 Hz).
Qed.



(** The text of a number has no capital N in it. *)
Lemma lacks_append c (s t : string) : lacks c s -> lacks c t -> lacks c (s ++ t).
Proof. induction s as [| c' s IH]; cbn; [tauto | intuition]. Qed.

Lemma lacks_append_r c (s t : string) : lacks c (s ++ t) -> lacks c t.
Proof. induction s as [| c' s IH]; cbn; [tauto | intuition]. Qed.

Ltac split_lacks :=
  match goal with
  | |- lacks ?c (?a ++ ?b)%string => apply (lacks_append c a b)
  end.

Lemma lacks_substring c (n m : nat) (s : string) : lacks c s -> lacks c (substring n m s).
Proof.
  revert n m. induction s as [| c' s IH]; intros n m Hs.
  - destruct n; [destruct m |]; exact I.
  - destruct Hs as [Hc Hs]. destruct n as [| n]; cbn [substring].
    + destruct m as [| m]; [exact I | split; [exact Hc | now apply IH]].
    + now apply IH.
Qed.

Lemma lacks_N_zeros (n : nat) : lacks "N" (Text.zeros n).
Proof. induction n; cbn; [exact I | split; [discriminate | assumption]]. Qed.

Lemma digit_char_not_N (d : Z) : 0 <= d < 10 -> Text.digit_char d <> "N"%char.
Proof.
  intros H.
  assert (Hd : d = 0 \/ d = 1 \/ d = 2 \/ d = 3 \/ d = 4 \/
               d = 5 \/ d = 6 \/ d = 7 \/ d = 8 \/ d = 9) by lia.
  repeat (destruct Hd as [-> | Hd]; [discriminate |]). subst d. discriminate.
Qed.

Lemma lacks_N_digits_fuel (fuel : nat) (n : Z) (acc : string) :
  0 <= n -> lacks "N" acc -> lacks "N" (Text.digits_fuel fuel n acc).
Proof.
  revert n acc. induction fuel as [| fuel IH]; intros n acc Hn Hacc; cbn [Text.digits_fuel].
  - exact Hacc.
  - destruct (Z.ltb_spec n 10).
    + split; [apply digit_char_not_N; lia | exact Hacc].
    + apply IH.
      * apply Z.div_pos; lia.
      * split; [apply digit_char_not_N, Z.mod_pos_bound; lia | exact Hacc].
Qed.

Lemma lacks_N_digits (n : Z) : lacks "N" (Text.digits n).
Proof.
  unfold Text.digits. destruct (Z.leb_spec n 0).
  - split; [discriminate | exact I].
  - apply lacks_N_digits_fuel; [lia | exact I].
Qed.

Lemma lacks_N_str_int (z : Z) : lacks "N" (Text.str_int z).
Proof.
  unfold Text.str_int. destruct (z <? 0).
  - split; [discriminate | apply lacks_N_digits].
  - apply lacks_N_digits.
Qed.

Lemma lacks_N_pad_left (w : nat) (n : Z) : lacks "N" (Text.pad_left w n).
Proof.
  unfold Text.pad_left. split_lacks; [apply lacks_N_zeros | apply lacks_N_digits].
Qed.

Lemma lacks_N_repr_float (f : float64) : lacks "N" (Text.repr_float f).
Proof.
  unfold Text.repr_float.
  destruct f as [s | s | | s m e]; try (destruct s; cbn; intuition discriminate).
  - cbn; intuition discriminate.
  - destruct (Text.shortest m e) as [d k].
    assert (Hds : lacks "N" (Text.digits d)) by apply lacks_N_digits.
    split_lacks; [destruct s; cbn; intuition discriminate |].
    destruct (_ || _).
    + split_lacks.
      { unfold Text.first_char. destruct (Text.digits d); [exact I |].
        split; [apply Hds | exact I]. }
      split_lacks.
      { destruct (1 <? _); [| exact I].
        split; [discriminate |].
        unfold Text.drop_first. destruct (Text.digits d); [exact I | apply Hds]. }
      split; [discriminate |]. cbn [append].
      split_lacks; [| apply lacks_N_pad_left].
      destruct (_ <? 0); (split; [discriminate | exact I]).
    + destruct (_ <=? 0).
      * split; [discriminate |]. split; [discriminate |]. cbn [append].
        split_lacks; [apply lacks_N_zeros | exact Hds].
      * destruct (_ <=? _).
        -- split_lacks; [exact Hds |].
           split_lacks; [apply lacks_N_zeros |].
           cbn; intuition discriminate.
        -- split_lacks; [now apply lacks_substring |].
           split; [discriminate |]. cbn [append]. now apply lacks_substring.
Qed.

Lemma py_str_not_NA (v : pyval) : is_number v = true -> py_str v <> "NA"%string.
Proof.
  intros Hn Heq.
  assert (H : lacks "N" (py_str v)).
  { destruct v as [| z | f | s]; try discriminate; cbn [py_str].
    - apply lacks_N_str_int.
    - apply lacks_N_repr_float. }
  rewrite Heq in H. destruct H as [H _]. now apply H.
Qed.

Lemma scaled_text_not_NA x c (suffix : string) :
  ~ lacks " " suffix -> scaled_text x c suffix <> "NA"%string.
Proof.
  intros Hs Heq. apply Hs. unfold scaled_text in Heq.
  apply (lacks_append_r " " (Text.format_2f (div x c)) suffix).
  rewrite Heq. cbn. intuition discriminate.
Qed.

Lemma number_text_not_NA v x :
  is_number v = true ->
  (if exceeds v f_1e12 then scaled_text x f_1e12 " T"
   else if exceeds v f_1e9 then scaled_text x f_1e9 " B"
   else if exceeds v f_1e6 then scaled_text x f_1e6 " M"
   else py_str v) <> "NA"%string.
Proof.
  intros Hn.
  destruct (exceeds v f_1e12); [apply scaled_text_not_NA; cbn; intuition |].
  destruct (exceeds v f_1e9); [apply scaled_text_not_NA; cbn; intuition |].
  destruct (exceeds v f_1e6); [apply scaled_text_not_NA; cbn; intuition |].
  now apply py_str_not_NA.
Qed.

(** X7.  ["NA"] is returned for a missing value and for nothing else: a
    scalar gives ["NA"] exactly when it is [None] or NaN.  No number is
    ever shown as ["NA"], whatever its size. *)
Theorem format_mcap_NA_iff_missing v :
  outcome (format_mcap (OScalar v)) = inr "NA"%string <-> pd_isna v = true.
Proof.
  split.
  - destruct (pd_isna v) eqn:Hna; [reflexivity |]. intros H. exfalso.
    destruct v as [| z | f | s]; try discriminate.
    + destruct (is_infinite (of_Z z)) eqn:Hz.
      * destruct (exceeds (PInt z) f_1e6) eqn:H6.
        -- rewrite (format_mcap_overflow z Hz H6) in H. discriminate.
        -- rewrite (format_mcap_plain (PInt z) eq_refl H6) in H.
           apply (py_str_not_NA (PInt z) eq_refl).
           unfold ret in H. cbn [outcome snd] in H. congruence.
      * assert (Ha : as_float (PInt z) = Some (of_Z z)) by (cbn; now rewrite Hz).
        rewrite (format_mcap_number _ _ Ha) in H.
        apply (number_text_not_NA (PInt z) (of_Z z) eq_refl). congruence.
    + cbn [pd_isna] in Hna.
      assert (Ha : as_float (PFloat f) = Some f) by (cbn; now rewrite Hna).
      rewrite (format_mcap_number _ _ Ha) in H.
      apply (number_text_not_NA (PFloat f) f eq_refl). congruence.
  - intros H. unfold format_mcap. cbn [safe_scalar]. now rewrite H.
Qed.

Lemma format_mcap_NA_iff_missing_witness :
  outcome (format_mcap (OScalar PNone)) = inr "NA"%string /\
  pd_isna np_nan = true.
Proof.
  split.
  - exact (proj2 (format_mcap_NA_iff_missing PNone) eq_refl).
  - exact (proj1 (format_mcap_NA_iff_missing np_nan) eq_refl).
Defined.

(** ** Dictionaries *)

Lemma dict_set_fresh {V} (k : string) (v : V) (d : list (string * V)) :
  ~ In k (map fst d) -> dict_set k v d = d ++ [(k, v)].
Proof.
  induction d as [| [k' v'] d IH]; intros Hk; [reflexivity |].
  cbn [dict_set app]. destruct (String.eqb_spec k' k) as [-> | Hne].
  - exfalso. apply Hk. now left.
  - f_equal. apply IH. intros H. apply Hk. now right.
Qed.

Lemma dict_set_keys_present {V} (k : string) (v : V) (d : list (string * V)) :
  In k (map fst d) -> map fst (dict_set k v d) = map fst d.
Proof.
  induction d as [| [k' v'] d IH]; intros Hk; [destruct Hk |].
  cbn [dict_set]. destruct (String.eqb_spec k' k) as [-> | Hne]; [reflexivity |].
  cbn [map fst]. f_equal. apply IH. destruct Hk as [Hk | Hk]; [contradiction | exact Hk].
Qed.

Lemma dict_get_set_same {V} (k : string) (v : V) (d : list (string * V)) :
  dict_get k (dict_set k v d) = Some v.
Proof.
  induction d as [| [k' v'] d IH]; cbn [dict_set dict_get].
  - now rewrite String.eqb_refl.
  - destruct (String.eqb k' k) eqn:He; cbn [dict_get]; now rewrite He.
Qed.

Lemma dict_get_set_other {V} (k k0 : string) (v : V) (d : list (string * V)) :
  k <> k0 -> dict_get k0 (dict_set k v d) = dict_get k0 d.
Proof.
  intros Hne. induction d as [| [k' v'] d IH]; cbn [dict_set dict_get].
  - destruct (String.eqb_spec k k0); [contradiction | reflexivity].
  - destruct (String.eqb_spec k' k) as [-> | Hk]; cbn [dict_get].
    + destruct (String.eqb_spec k k0); [contradiction | reflexivity].
    + now rewrite IH.
Qed.

Lemma dict_set_keys_in {V} (k k0 : string) (v : V) (d : list (string * V)) :
  In k0 (map fst (dict_set k v d)) <-> In k0 (map fst d) \/ k0 = k.
Proof.
  destruct (in_dec string_dec k (map fst d)) as [Hin | Hout].
  - rewrite (dict_set_keys_present k v d Hin). split; [auto |].
    intros [H | ->]; assumption.
  - rewrite (dict_set_fresh k v d Hout), map_app, in_app_iff. cbn. intuition.
Qed.

Lemma dict_set_keys_nodup {V} (k : string) (v : V) (d : list (string * V)) :
  NoDup (map fst d) -> NoDup (map fst (dict_set k v d)).
Proof.
  intros Hd. destruct (in_dec string_dec k (map fst d)) as [Hin | Hout].
  - now rewrite (dict_set_keys_present k v d Hin).
  - rewrite (dict_set_fresh k v d Hout), map_app. cbn.
    apply NoDup_app; [exact Hd | repeat constructor; intros [] |].
    intros x Hx [<- | []]. contradiction.
Qed.

(** ** The provider, the histories and the metrics *)

Lemma try_except_call {A} (r : exn + A) (a : A) :
  try_except (call r) (fun _ => ret a) = ret (match r with inr x => x | inl _ => a end).
Proof. now destruct r. Qed.

Section ProviderProperties.

Variable yf_history : string -> string -> exn + DataFrame.
Variable yf_fast_info : string -> exn + fast_info.
Variable parse_numeric : string -> option float64.
Variable plot_error : string -> series -> option exn.

Lemma load_data_loaded ticker period :
  load_data yf_history ticker period = ret (loaded (yf_history ticker period)).
Proof. unfold load_data. now rewrite try_except_call. Qed.

Lemma build_histories_fold stocks period d :
  fold_left
    (fun acc s =>
       d <- acc ;; df <- load_data yf_history s period ;; ret (dict_set s df d))
    stocks (ret d) =
  ret (fold_left (fun d s => dict_set s (loaded (yf_history s period)) d) stocks d).
Proof.
  revert d. induction stocks as [| s stocks IH]; intros d; [reflexivity |].
  cbn [fold_left]. rewrite bind_ret, load_data_loaded, bind_ret. apply IH.
Qed.

Lemma histories_fold_keys stocks period d k :
  In k (map fst (fold_left (fun d s => dict_set s (loaded (yf_history s period)) d) stocks d))
  <-> In k (map fst d) \/ In k stocks.
Proof using yf_history.
  clear yf_fast_info parse_numeric plot_error.
  revert d. induction stocks as [| s stocks IH]; intros d; cbn [fold_left].
  - cbn. tauto.
  - rewrite IH, dict_set_keys_in. cbn. intuition.
Qed.

Lemma histories_fold_nodup stocks period d :
  NoDup (map fst d) ->
  NoDup (map fst (fold_left (fun d s => dict_set s (loaded (yf_history s period)) d) stocks d)).
Proof.
  revert d. induction stocks as [| s stocks IH]; intros d Hd; cbn [fold_left];
    [exact Hd |].
  apply IH. now apply dict_set_keys_nodup.
Qed.

Lemma histories_fold_values stocks period d :
  (forall k v, In (k, v) d -> v = loaded (yf_history k period)) ->
  forall k v,
    In (k, v) (fold_left (fun d s => dict_set s (loaded (yf_history s period)) d) stocks d) ->
    v = loaded (yf_history k period).
Proof.
  revert d. induction stocks as [| s stocks IH]; intros d Hd; cbn [fold_left];
    [exact Hd |].
  apply IH. clear IH. induction d as [| [k' v'] d IHd]; intros k v Hin.
  - destruct Hin as [Hin | []]. now injection Hin as <- <-.
  - cbn [dict_set] in Hin. destruct (String.eqb_spec k' s) as [-> | Hne].
    + destruct Hin as [Hin | Hin].
      * now injection Hin as <- <-.
      * apply Hd. now right.
    + destruct Hin as [Hin | Hin].
      * apply Hd. now left.
      * apply IHd; [| exact Hin]. intros k0 v0 H0. apply Hd. now right.
Qed.

Lemma histories_fold_get stocks period d s :
  dict_get s d = Some (loaded (yf_history s period)) \/ In s stocks ->
  dict_get s (fold_left (fun d s => dict_set s (loaded (yf_history s period)) d) stocks d) =
  Some (loaded (yf_history s period)).
Proof.
  revert d. induction stocks as [| s0 stocks IH]; intros d H; cbn [fold_left].
  - destruct H as [H | []]. exact H.
  - apply IH. destruct (string_dec s0 s) as [-> | Hne].
    + left. apply dict_get_set_same.
    + destruct H as [H | [H | H]]; [| contradiction | now right].
      left. now rewrite dict_get_set_other.
Qed.

Lemma histories_fold_distinct stocks period d :
  NoDup (map fst d ++ stocks) ->
  fold_left (fun d s => dict_set s (loaded (yf_history s period)) d) stocks d =
  d ++ map (fun s => (s, loaded (yf_history s period))) stocks.
Proof.
  revert d. induction stocks as [| s stocks IH]; intros d Hd; cbn [fold_left map].
  - now rewrite app_nil_r.
  - assert (Hs : ~ In s (map fst d)).
    { intros Hin. apply NoDup_remove_2 in Hd. apply Hd, in_or_app. now left. }
    rewrite (dict_set_fresh s _ d Hs), IH.
    + now rewrite <- app_assoc.
    + rewrite map_app. cbn [map fst]. rewrite <- app_assoc. exact Hd.
Qed.

(** X8.  The histories are a dictionary keyed by the ticker: a ticker
    entered twice is one entry, so every ticker of the input is a key
    once and only once, and its value is what [load_data] delivers for
    it; distinct tickers keep their order. *)
Theorem build_histories_one_entry_per_ticker stocks period :
  exists h,
    build_histories yf_history stocks period = ret h /\
    NoDup (map fst h) /\
    (forall s, In s (map fst h) <-> In s stocks) /\
    (forall s, In s stocks ->
       load_data yf_history s period = ret (loaded (yf_history s period)) /\
       dict_get s h = Some (loaded (yf_history s period))) /\
    (NoDup stocks -> h = map (fun s => (s, loaded (yf_history s period))) stocks).
Proof using yf_history.
  clear yf_fast_info parse_numeric plot_error.
  eexists. split; [apply build_histories_fold |].
  split; [apply histories_fold_nodup; constructor |].
  split; [| split].
  - intros s. rewrite histories_fold_keys. cbn. tauto.
  - intros s Hs. split; [apply load_data_loaded |].
    apply histories_fold_get. now right.
  - intros Hnd. now rewrite histories_fold_distinct.
Qed.

Lemma get_marketcap_value ticker :
  get_marketcap yf_fast_info ticker =
  ret (match yf_fast_info ticker with
       | inl _ => OScalar np_nan
       | inr info =>
           match info "marketCap"%string with
           | inr (Some v) => v
           | _ => OScalar np_nan
           end
       end).
Proof.
  unfold get_marketcap, call, info_get.
  destruct (yf_fast_info ticker) as [e | info]; [reflexivity |].
  rewrite bind_value. cbn [app].
  destruct (info "marketCap"%string) as [e | [v |]]; reflexivity.
Qed.

Lemma get_marketcap_missing ticker :
  lacks_cap (yf_fast_info ticker) ->
  get_marketcap yf_fast_info ticker = ret (OScalar np_nan).
Proof.
  intros Hl. rewrite get_marketcap_value. unfold lacks_cap in Hl.
  destruct (yf_fast_info ticker) as [e | info]; [reflexivity |].
  destruct (info "marketCap"%string) as [e | [v |]];
    [reflexivity | destruct Hl | reflexivity].
Qed.

(** X9.  [get_marketcap] raises nothing.  When the provider's mapping
    cannot be had, when the lookup of ["marketCap"] raises and when there
    is no such key, it returns NaN and the table shows ["NA"]; otherwise
    it returns the provider's value as it is. *)
Theorem get_marketcap_degrades_to_NA :
  (forall ticker, exists v, get_marketcap yf_fast_info ticker = ret v) /\
  (forall ticker, lacks_cap (yf_fast_info ticker) ->
     get_marketcap yf_fast_info ticker = ret (OScalar np_nan) /\
     (cap <- get_marketcap yf_fast_info ticker ;; format_mcap cap) = ret "NA"%string) /\
  (forall ticker info v,
     yf_fast_info ticker = inr info -> info "marketCap"%string = inr (Some v) ->
     get_marketcap yf_fast_info ticker = ret v).
Proof.
  split; [| split].
  - intros ticker. eexists. apply get_marketcap_value.
  - intros ticker Hl.
    assert (H : get_marketcap yf_fast_info ticker = ret (OScalar np_nan)).
    { rewrite get_marketcap_value. unfold lacks_cap in Hl.
      destruct (yf_fast_info ticker) as [e | info]; [reflexivity |].
      destruct (info "marketCap"%string) as [e | [v |]]; [reflexivity | destruct Hl | reflexivity]. }
    split; [exact H |]. now rewrite H, bind_ret.
  - intros ticker info v Hi Hv. now rewrite get_marketcap_value, Hi, Hv.
Qed.

(** X10.  A ticker whose fetch raises gets the empty frame.  Its return
    is NaN and nothing is raised; in the chart loop, however, the empty
    frame has no ["Close"] column, so the ticker is not skipped in
    silence: its [KeyError] is shown as an error. *)
Theorem failed_fetch_is_NaN_and_chart_error ticker period e :
  yf_history ticker period = inl e ->
  load_data yf_history ticker period = ret empty_frame /\
  (df <- load_data yf_history ticker period ;; compute_returns df) = ret np_nan /\
  (forall chart_type c,
     chart_step parse_numeric plot_error chart_type c
       (ticker, loaded (yf_history ticker period)) = st_error ticker KeyError c).
Proof.
  intros He.
  assert (H : load_data yf_history ticker period = ret empty_frame)
    by (now rewrite load_data_loaded, He).
  split; [exact H | split].
  - now rewrite H, bind_ret.
  - intros chart_type c. now rewrite He.
Qed.

Lemma metrics_row_outcome df s :
  outcome (metrics_row yf_fast_info df s) =
  match outcome (compute_returns df) with
  | inl e => inl e
  | inr r =>
      match outcome (cap <- get_marketcap yf_fast_info s ;; format_mcap cap) with
      | inl e => inl e
      | inr t => inr (mkMetric r t)
      end
  end.
Proof.
  unfold metrics_row. rewrite outcome_bind.
  destruct (outcome (compute_returns df)) as [e | r]; [reflexivity |].
  rewrite !outcome_bind.
  destruct (outcome (get_marketcap yf_fast_info s)) as [e | cap]; [reflexivity |].
  rewrite outcome_bind. now destruct (outcome (format_mcap cap)).
Qed.

Lemma metrics_fold_raised hs (acc : M (list (string * metric))) e :
  outcome acc = inl e ->
  outcome (fold_left
             (fun acc item =>
                m <- acc ;;
                row <- metrics_row yf_fast_info (snd item) (fst item) ;;
                ret (dict_set (fst item) row m))
             hs acc) = inl e.
Proof.
  revert acc. induction hs as [| item hs IH]; intros acc Hacc; [exact Hacc |].
  cbn [fold_left]. apply IH. now rewrite outcome_bind, Hacc.
Qed.

Lemma metrics_fold_rows hs (acc : M (list (string * metric))) m table :
  outcome acc = inr m ->
  NoDup (map fst m ++ map fst hs) ->
  outcome (fold_left
             (fun acc item =>
                m <- acc ;;
                row <- metrics_row yf_fast_info (snd item) (fst item) ;;
                ret (dict_set (fst item) row m))
             hs acc) = inr table <->
  exists rows, table = m ++ rows /\ Forall2 (row_of yf_fast_info) hs rows.
Proof.
  revert acc m. induction hs as [| [k df] hs IH]; intros acc m Hacc Hnd.
  - cbn [fold_left]. rewrite Hacc. split.
    + intros H. injection H as <-. exists []. now rewrite app_nil_r.
    + intros (rows & -> & Hrows). inversion Hrows. now rewrite app_nil_r.
  - cbn [fold_left fst snd map] in *.
    assert (Hk : ~ In k (map fst m)).
    { intros Hin. apply NoDup_remove_2 in Hnd. apply Hnd, in_or_app. now left. }
    set (step := m0 <- acc ;; row <- metrics_row yf_fast_info df k ;;
                 ret (dict_set k row m0)).
    assert (Hstep : outcome step =
                    match outcome (metrics_row yf_fast_info df k) with
                    | inl e => inl e
                    | inr row => inr (m ++ [(k, row)])
                    end).
    { subst step. rewrite outcome_bind, Hacc, outcome_bind.
      destruct (outcome (metrics_row yf_fast_info df k)) as [e | row]; [reflexivity |].
      cbn [ret outcome snd]. now rewrite dict_set_fresh. }
    pose proof (metrics_row_outcome df k) as Hrow.
    destruct (outcome (metrics_row yf_fast_info df k)) as [e | row] eqn:Hr.
    + rewrite (metrics_fold_raised hs step e Hstep). split; [discriminate |].
      intros (rows & _ & Hrows). exfalso. inversion Hrows as [| ? r ? ? (_ & Hc & Hm) _]; subst.
      cbn [fst snd] in *. rewrite Hc, Hm in Hrow. discriminate.
    + rewrite (IH step (m ++ [(k, row)]) Hstep).
      2:{ rewrite map_app. cbn [map fst]. rewrite <- app_assoc. exact Hnd. }
      split.
      * intros (rows & -> & Hrows). exists ((k, row) :: rows).
        split; [now rewrite <- app_assoc |]. constructor; [| exact Hrows].
        unfold row_of. cbn [fst snd]. split; [reflexivity |].
        destruct (outcome (compute_returns df)) as [e | r]; [discriminate |].
        destruct (outcome (cap <- get_marketcap yf_fast_info k ;; format_mcap cap))
          as [e | t]; [discriminate |].
        injection Hrow as ->. split; reflexivity.
      * intros (rows & -> & Hrows).
        inversion Hrows as [| ? [k' row'] ? rows' (Hk' & Hc & Hm) Hrest]; subst.
        cbn [fst snd] in *. subst k'. exists rows'. split; [| exact Hrest].
        rewrite Hc, Hm in Hrow. injection Hrow as ->.
        destruct row'. now rewrite <- app_assoc.
Qed.

(** X11.  Over histories with distinct keys, the metrics are one row per
    ticker, in the order of the histories, each holding what
    [compute_returns] and [format_mcap(get_marketcap(...))] return for
    this ticker.  Nothing catches an exception here: if either raises
    for one ticker, the whole table is lost. *)
Theorem metrics_rows_or_nothing hs :
  NoDup (map fst hs) ->
  (forall table,
     outcome (metrics yf_fast_info hs) = inr table <-> Forall2 (row_of yf_fast_info) hs table) /\
  (forall item e,
     In item hs ->
     outcome (compute_returns (snd item)) = inl e \/
     outcome (cap <- get_marketcap yf_fast_info (fst item) ;; format_mcap cap) = inl e ->
     exists e', outcome (metrics yf_fast_info hs) = inl e').
Proof.
  intros Hnd. assert (Hrows : forall table,
    outcome (metrics yf_fast_info hs) = inr table <-> Forall2 (row_of yf_fast_info) hs table).
  { intros table. unfold metrics.
    rewrite (metrics_fold_rows hs (ret []) [] table eq_refl Hnd).
    split; [now intros (rows & -> & H) | intros H; now exists table]. }
  split; [exact Hrows |].
  intros item e Hin Hfail.
  destruct (outcome (metrics yf_fast_info hs)) as [e' | table] eqn:Hm; [eauto |].
  exfalso. pose proof (proj1 (Hrows table) eq_refl) as HF.
  clear Hrows Hnd Hm. induction HF as [| it row hs' rows (_ & Hc & Hcap) _ IH]; [destruct Hin |].
  destruct Hin as [-> | Hin]; [| now apply IH].
  destruct Hfail as [Hf | Hf]; congruence.
Qed.

Lemma constant_values {V} (h : list (string * V)) (c : V) :
  (forall k v, In (k, v) h -> v = c) -> h = map (fun k => (k, c)) (map fst h).
Proof.
  induction h as [| [k v] h IH]; intros H; [reflexivity |].
  cbn [map fst]. rewrite (H k v (or_introl eq_refl)). f_equal.
  apply IH. intros k0 v0 H0. apply (H k0 v0). now right.
Qed.

Lemma metrics_all_missing keys (m : list (string * metric)) :
  (forall k, In k keys -> lacks_cap (yf_fast_info k)) ->
  NoDup (map fst m ++ keys) ->
  fold_left
    (fun acc item =>
       m <- acc ;;
       row <- metrics_row yf_fast_info (snd item) (fst item) ;;
       ret (dict_set (fst item) row m))
    (map (fun k => (k, empty_frame)) keys) (ret m) =
  ret (m ++ map (fun k => (k, mkMetric np_nan "NA")) keys).
Proof.
  revert m. induction keys as [| k keys IH]; intros m Hcap Hnd; cbn [map fold_left].
  - now rewrite app_nil_r.
  - cbn [fst snd].
    assert (Hrow : metrics_row yf_fast_info empty_frame k = ret (mkMetric np_nan "NA")).
    { unfold metrics_row.
      change (compute_returns empty_frame) with (@ret pyval np_nan). rewrite bind_ret.
      rewrite (get_marketcap_missing k (Hcap k (or_introl eq_refl))), bind_ret.
      change (format_mcap (OScalar np_nan)) with (@ret string "NA"%string).
      now rewrite bind_ret. }
    assert (Hk : ~ In k (map fst m)).
    { intros Hin. apply NoDup_remove_2 in Hnd. apply Hnd, in_or_app. now left. }
    rewrite bind_ret, Hrow, bind_ret, (dict_set_fresh k _ m Hk), IH.
    + now rewrite <- app_assoc.
    + intros k0 H0. apply Hcap. now right.
    + rewrite map_app. cbn [map fst]. rewrite <- app_assoc. exact Hnd.
Qed.

Lemma chart_loop_all_empty chart_type keys c :
  chart_loop parse_numeric plot_error chart_type
    (map (fun k => (k, empty_frame)) keys) c =
  mkChart (ylabel c) (lines c) (errors c ++ map (fun k => (k, KeyError)) keys).
Proof.
  unfold chart_loop. revert c.
  induction keys as [| k keys IH]; intros c; cbn [map fold_left].
  - rewrite app_nil_r. now destruct c.
  - rewrite IH. unfold chart_step.
    rewrite (build_no_column parse_numeric empty_frame chart_type eq_refl).
    cbn [raise outcome snd st_error ylabel lines errors]. now rewrite <- app_assoc.
Qed.

(** X12.  When the provider is down for every ticker entered, the page
    still comes up: the table has one row per distinct ticker with a NaN
    return and ["NA"], no line is drawn, the axis keeps no label, and
    the chart shows one [KeyError] message per distinct ticker. *)
Theorem page_total_outage stocks period chart_type :
  (forall s, In s stocks -> exists e, yf_history s period = inl e) ->
  (forall s, In s stocks -> lacks_cap (yf_fast_info s)) ->
  exists keys,
    NoDup keys /\
    (forall s, In s keys <-> In s stocks) /\
    page yf_history yf_fast_info parse_numeric plot_error stocks period chart_type =
    ret (map (fun k => (k, mkMetric np_nan "NA")) keys,
         mkChart None [] (map (fun k => (k, KeyError)) keys)).
Proof.
  intros Hdown Hcap.
  pose (h := fold_left (fun d s => dict_set s (loaded (yf_history s period)) d) stocks []).
  assert (Hkeys : forall s, In s (map fst h) <-> In s stocks).
  { intros s. subst h. rewrite histories_fold_keys. cbn. tauto. }
  assert (Hnd : NoDup (map fst h)) by (apply histories_fold_nodup; constructor).
  assert (Hh : h = map (fun k => (k, empty_frame)) (map fst h)).
  { apply constant_values. intros k v Hin.
    assert (Hv : v = loaded (yf_history k period)).
    { apply (histories_fold_values stocks period []); [intros ? ? [] | exact Hin]. }
    assert (Hk : In k stocks) by (apply Hkeys; now apply (in_map fst h (k, v))).
    destruct (Hdown k Hk) as [e He]. now rewrite Hv, He. }
  assert (Hb : build_histories yf_history stocks period = ret h)
    by apply build_histories_fold.
  clearbody h. remember (map fst h) as keys eqn:Hk. clear Hk.
  exists keys. split; [exact Hnd | split; [exact Hkeys |]].
  unfold page. rewrite Hb, bind_ret. subst h. unfold metrics.
  rewrite (metrics_all_missing keys []).
  - rewrite bind_ret, chart_loop_all_empty. reflexivity.
  - intros k Hk. apply Hcap, Hkeys, Hk.
  - exact Hnd.
Qed.

End ProviderProperties.

Lemma build_histories_one_entry_per_ticker_witness :
  NoDup ["TCS.NS"%string; "INFY.NS"%string] /\
  build_histories sample_history ["TCS.NS"%string; "INFY.NS"%string] "1y"%string =
    ret [("TCS.NS"%string, close_frame [PFloat f_100; PFloat f_110]);
         ("INFY.NS"%string, close_frame [PFloat f_50; np_nan; PFloat f_75])].
Proof.
  assert (Hnd : NoDup ["TCS.NS"%string; "INFY.NS"%string]).
  { constructor; [intros [H | []]; discriminate |].
    constructor; [intros [] | constructor]. }
  split; [exact Hnd |].
  destruct (build_histories_one_entry_per_ticker sample_history
              ["TCS.NS"%string; "INFY.NS"%string] "1y"%string)
    as (h & Hb & _ & _ & _ & Hd).
  rewrite Hb, (Hd Hnd). reflexivity.
Defined.

Lemma get_marketcap_degrades_to_NA_witness :
  lacks_cap (sample_fast_info "INFY.NS"%string) /\
  get_marketcap sample_fast_info "INFY.NS"%string = ret (OScalar np_nan) /\
  lacks_cap (sample_fast_info "RELIANCE.NS"%string) /\
  (cap <- get_marketcap sample_fast_info "RELIANCE.NS"%string ;; format_mcap cap) = ret "NA"%string /\
  get_marketcap sample_fast_info "TCS.NS"%string = ret (OScalar (PFloat f_2_5e12)).
Proof.
  destruct (get_marketcap_degrades_to_NA sample_fast_info) as (_ & Hna & Hval).
  split; [exact I | split; [| split; [exact I | split]]].
  - exact (proj1 (Hna "INFY.NS"%string I)).
  - exact (proj2 (Hna "RELIANCE.NS"%string I)).
  - exact (Hval "TCS.NS"%string
             (fun key => if String.eqb key "marketCap"
                         then inr (Some (OScalar (PFloat f_2_5e12))) else inr None)
             (OScalar (PFloat f_2_5e12)) eq_refl eq_refl).
Defined.

Lemma failed_fetch_is_NaN_and_chart_error_witness :
  sample_history "RELIANCE.NS"%string "1y"%string = inl ValueError /\
  (df <- load_data sample_history "RELIANCE.NS"%string "1y"%string ;; compute_returns df) = ret np_nan /\
  chart_step parse_nothing (plot_fails_for "X") "Relative Price"%string new_chart
    ("RELIANCE.NS"%string, loaded (sample_history "RELIANCE.NS"%string "1y"%string)) =
    st_error "RELIANCE.NS" KeyError new_chart.
Proof.
  destruct (failed_fetch_is_NaN_and_chart_error sample_history parse_nothing
              (plot_fails_for "X") "RELIANCE.NS"%string "1y"%string ValueError eq_refl)
    as (_ & Hret & Hchart).
  split; [reflexivity | split; [exact Hret |]].
  exact (Hchart "Relative Price"%string new_chart).
Defined.

Lemma metrics_rows_or_nothing_witness :
  (exists e,
     outcome (metrics sample_fast_info
                [("TCS.NS"%string, close_frame [PFloat f_100; PFloat f_110]);
                 ("INFY.NS"%string, close_frame [PStr "n/a"; PFloat f_75])]) = inl e) /\
  Forall2 (row_of sample_fast_info)
    [("TCS.NS"%string, close_frame [PFloat f_100; PFloat f_100])]
    [("TCS.NS"%string, mkMetric (PFloat f_0) "2.50 T")].
Proof.
  split.
  - assert (Hnd : NoDup (map fst
        [("TCS.NS"%string, close_frame [PFloat f_100; PFloat f_110]);
         ("INFY.NS"%string, close_frame [PStr "n/a"; PFloat f_75])])).
    { constructor; [intros [H | []]; discriminate |].
      constructor; [intros [] | constructor]. }
    apply (proj2 (metrics_rows_or_nothing sample_fast_info _ Hnd)
             ("INFY.NS"%string, close_frame [PStr "n/a"; PFloat f_75]) TypeError).
    + right. now left.
    + left. reflexivity.
  - assert (Hnd : NoDup (map fst
        [("TCS.NS"%string, close_frame [PFloat f_100; PFloat f_100])])).
    { constructor; [intros [] | constructor]. }
    apply (proj1 (metrics_rows_or_nothing sample_fast_info _ Hnd)
             [("TCS.NS"%string, mkMetric (PFloat f_0) "2.50 T")]).
    vm_compute. reflexivity.
Defined.

Lemma page_total_outage_witness :
  exists keys,
    NoDup keys /\
    (forall s, In s keys <-> In s ["RELIANCE.NS"%string; "TCS.NS"%string; "TCS.NS"%string]) /\
    page history_down fast_info_down parse_nothing (plot_fails_for "X")
      ["RELIANCE.NS"%string; "TCS.NS"%string; "TCS.NS"%string] "1y"%string "Relative Price"%string =
    ret (map (fun k => (k, mkMetric np_nan "NA")) keys,
         mkChart None [] (map (fun k => (k, KeyError)) keys)).
Proof.
  apply (page_total_outage history_down fast_info_down parse_nothing (plot_fails_for "X")).
  - intros s _. exists ValueError. reflexivity.
  - intros s _. exact I.
Defined.

(** ** The chart loop: what a frame can make of it *)

Lemma series_mapM_events_nil (f : pyval -> M pyval) (s : series) :
  (forall v, events (f v) = []) -> events (series_mapM f s) = [].
Proof.
  intros Hf. induction s as [| [t v] s IH]; [reflexivity |].
  cbn [series_mapM]. rewrite events_bind, Hf. cbn [app].
  destruct (outcome (f v)); [reflexivity |].
  rewrite events_bind, IH. cbn [app].
  now destruct (outcome (series_mapM f s)).
Qed.

Lemma series_mapM_events_in (f : pyval -> M pyval) (s : series) (ev : event) :
  In ev (events (series_mapM f s)) -> exists c, In c s /\ In ev (events (f (snd c))).
Proof.
  induction s as [| [t v] s IH]; [intros [] |].
  cbn [series_mapM]. rewrite events_bind. intros H. apply in_app_or in H.
  destruct H as [H | H].
  - exists (t, v). split; [now left | exact H].
  - destruct (outcome (f v)); [destruct H |].
    rewrite events_bind in H. apply in_app_or in H. destruct H as [H | H].
    + destruct (IH H) as (c & Hc & Hev). exists c. split; [now right | exact Hev].
    + now destruct (outcome (series_mapM f s)).
Qed.

Lemma rebase_events (s : series) (base : pyval) (ev : event) :
  In ev (events (rebase s base)) -> exists v, ev = EvDiv v base.
Proof.
  unfold rebase. rewrite events_bind. intros H. apply in_app_or in H.
  destruct H as [H | H].
  - apply series_mapM_events_in in H. destruct H as (c & _ & H).
    rewrite py_truediv_events in H. destruct H as [<- | []]. eauto.
  - destruct (outcome (series_mapM (fun v => py_truediv v base) s)); [destruct H |].
    rewrite series_mapM_events_nil in H; [destruct H |].
    intros v. apply py_mul_float_events.
Qed.

Lemma rebase_cell_float (b : float64) (c : timestamp * pyval) :
  is_float_cell c -> exists f, snd (rebase_cell b c) = PFloat f.
Proof.
  intros (f & Hf & _). unfold rebase_cell. cbn [snd]. rewrite Hf. eauto.
Qed.


Section ChartFurther.

Variable parse_numeric : string -> option float64.
Variable plot_error : string -> series -> option exn.

(** What the loop body makes of a frame whose cleaned series is not
    empty: it raises nothing, keeps the labels, yields floats, sets the
    label of the chart type, and divides by nothing that is zero. *)
Lemma build_nonempty chart_type df c s :
  cleaned_close parse_numeric df = Some (c :: s) ->
  exists data,
    outcome (build_chart_series parse_numeric chart_type df) =
      inr (Some (data, axis_label chart_type)) /\
    map fst data = map fst (c :: s) /\
    Forall (fun cell => exists f, snd cell = PFloat f) data /\
    (forall num den,
       In (EvDiv num den) (events (build_chart_series parse_numeric chart_type df)) ->
       zero_divisor den = false).
Proof.
  intros Hc.
  pose proof (cleaned_close_floats parse_numeric df _ Hc) as Hfl.
  assert (Hraw : Forall (fun cell : timestamp * pyval => exists f, snd cell = PFloat f) (c :: s)).
  { eapply Forall_impl; [| exact Hfl]. intros cell (f & Hf & _). eauto. }
  unfold axis_label. destruct (String.eqb_spec chart_type "Relative Price") as [-> | Hne].
  - rewrite (build_relative parse_numeric df c s Hc).
    pose proof (Forall_inv Hfl) as (b & Hb & Hnan). rewrite Hb.
    rewrite (usable_base_float b Hnan), bind_ret.
    destruct (isclose b f_0) eqn:Hclose; cbn [negb].
    + rewrite bind_ret. exists (c :: s).
      split; [reflexivity | split; [reflexivity | split; [exact Hraw |]]].
      intros num den [].
    + assert (Hz : is_zero b = false).
      { destruct (is_zero b) eqn:Hz; [| reflexivity].
        now rewrite (isclose_zero_of_zero b Hz) in Hclose. }
      pose proof (rebase_outcome b (c :: s) Hz Hfl) as Hout.
      exists (map (rebase_cell b) (c :: s)).
      split; [now rewrite outcome_bind, Hout | split; [| split]].
      * rewrite map_map. reflexivity.
      * apply Forall_forall. intros cell Hin. apply in_map_iff in Hin.
        destruct Hin as (c0 & <- & Hc0). apply rebase_cell_float.
        rewrite Forall_forall in Hfl. now apply Hfl.
      * intros num den Hin. rewrite events_bind in Hin. apply in_app_or in Hin.
        destruct Hin as [Hin | Hin].
        -- apply rebase_events in Hin. destruct Hin as (v & Hev).
           injection Hev as _ ->. exact Hz.
        -- rewrite Hout in Hin. destruct Hin.
  - apply String.eqb_neq in Hne.
    rewrite (build_other parse_numeric df c s chart_type Hc Hne).
    exists (c :: s).
    split; [reflexivity | split; [reflexivity | split; [exact Hraw |]]].
    intros num den [].
Qed.

(** X13.  The loop body never divides by zero, and the only exception
    it can raise while it builds a series is the [KeyError] of a frame
    without a ["Close"] column: text, [None] and NaN in the column are
    dropped, they are no failure as they are in [compute_returns]. *)
Theorem build_chart_series_only_KeyError :
  (forall chart_type df e,
     outcome (build_chart_series parse_numeric chart_type df) = inl e <->
     e = KeyError /\ find_column "Close" (df_columns df) = None) /\
  (forall chart_type df num den,
     In (EvDiv num den) (events (build_chart_series parse_numeric chart_type df)) ->
     zero_divisor den = false).
Proof.
  split.
  - intros chart_type df e.
    destruct (cleaned_close parse_numeric df) as [[| c s] |] eqn:Hc.
    + rewrite (build_empty parse_numeric df chart_type Hc). split; [discriminate |].
      intros [_ Hcol]. unfold cleaned_close in Hc. now rewrite Hcol in Hc.
    + destruct (build_nonempty chart_type df c s Hc) as (data & Hout & _).
      rewrite Hout. split; [discriminate |].
      intros [_ Hcol]. unfold cleaned_close in Hc. now rewrite Hcol in Hc.
    + rewrite (build_no_column parse_numeric df chart_type Hc).
      cbn [raise outcome snd]. unfold cleaned_close in Hc.
      destruct (find_column "Close" (df_columns df)); [discriminate |].
      split; [intros H; injection H as <-; auto | intros [-> _]; reflexivity].
  - intros chart_type df num den Hin.
    destruct (cleaned_close parse_numeric df) as [[| c s] |] eqn:Hc.
    + rewrite (build_empty parse_numeric df chart_type Hc) in Hin. destruct Hin.
    + destruct (build_nonempty chart_type df c s Hc) as (_ & _ & _ & _ & Hdiv).
      now apply (Hdiv num den).
    + rewrite (build_no_column parse_numeric df chart_type Hc) in Hin. destruct Hin.
Qed.


Lemma chart_step_mark chart_type item :
  (lines (chart_step parse_numeric plot_error chart_type new_chart item) = [] /\
   errors (chart_step parse_numeric plot_error chart_type new_chart item) = []) \/
  (exists data,
     lines (chart_step parse_numeric plot_error chart_type new_chart item) = [(fst item, data)] /\
     errors (chart_step parse_numeric plot_error chart_type new_chart item) = []) \/
  (exists e,
     lines (chart_step parse_numeric plot_error chart_type new_chart item) = [] /\
     errors (chart_step parse_numeric plot_error chart_type new_chart item) = [(fst item, e)]).
Proof.
  unfold chart_step. destruct item as [s df]. cbn [fst].
  destruct (outcome (build_chart_series parse_numeric chart_type df))
    as [e | [[data label] |]].
  - right. right. exists e. split; reflexivity.
  - destruct (plot_error s data) as [e |].
    + right. right. exists e. split; reflexivity.
    + right. left. exists data. split; reflexivity.
  - left. split; reflexivity.
Qed.

Lemma chart_loop_cons chart_type item hs :
  lines (chart_loop parse_numeric plot_error chart_type (item :: hs) new_chart) =
    lines (chart_step parse_numeric plot_error chart_type new_chart item) ++
    lines (chart_loop parse_numeric plot_error chart_type hs new_chart) /\
  errors (chart_loop parse_numeric plot_error chart_type (item :: hs) new_chart) =
    errors (chart_step parse_numeric plot_error chart_type new_chart item) ++
    errors (chart_loop parse_numeric plot_error chart_type hs new_chart).
Proof.
  rewrite (chart_loop_lines parse_numeric plot_error chart_type (item :: hs) new_chart).
  rewrite (chart_loop_lines parse_numeric plot_error chart_type hs new_chart).
  rewrite (chart_loop_errors parse_numeric plot_error chart_type (item :: hs) new_chart).
  rewrite (chart_loop_errors parse_numeric plot_error chart_type hs new_chart).
  split; reflexivity.
Qed.

Lemma chart_loop_marks chart_type hs :
  (List.length (lines (chart_loop parse_numeric plot_error chart_type hs new_chart)) +
   List.length (errors (chart_loop parse_numeric plot_error chart_type hs new_chart))
     <= List.length hs)%nat /\
  incl (map fst (lines (chart_loop parse_numeric plot_error chart_type hs new_chart)) ++
        map fst (errors (chart_loop parse_numeric plot_error chart_type hs new_chart)))
       (map fst hs) /\
  (NoDup (map fst hs) ->
   NoDup (map fst (lines (chart_loop parse_numeric plot_error chart_type hs new_chart)) ++
          map fst (errors (chart_loop parse_numeric plot_error chart_type hs new_chart)))).
Proof.
  induction hs as [| item hs (IHlen & IHin & IHnd)].
  - split; [cbn; lia | split; [intros x [] | intros _; constructor]].
  - destruct (chart_loop_cons chart_type item hs) as [Hl He]. rewrite Hl, He.
    set (L := lines (chart_loop parse_numeric plot_error chart_type hs new_chart)) in *.
    set (E := errors (chart_loop parse_numeric plot_error chart_type hs new_chart)) in *.
    destruct (chart_step_mark chart_type item)
      as [[-> ->] | [(data & -> & ->) | (e & -> & ->)]]; cbn [app map fst List.length].
    + split; [lia | split].
      * intros x Hx. right. now apply IHin.
      * intros Hnd. apply IHnd. now inversion Hnd.
    + split; [lia | split].
      * intros x [<- | Hx]; [now left | right; now apply IHin].
      * intros Hnd. inversion Hnd as [| k ks Hk Hks]; subst.
        constructor; [| now apply IHnd].
        intros Hin. apply Hk. now apply IHin.
    + split; [lia | split].
      * intros x Hx. apply in_app_or in Hx. destruct Hx as [Hx | [<- | Hx]].
        -- right. apply IHin, in_or_app. now left.
        -- now left.
        -- right. apply IHin, in_or_app. now right.
      * intros Hnd. inversion Hnd as [| k ks Hk Hks]; subst.
        apply NoDup_Add with (a := fst item) (l := map fst L ++ map fst E).
        -- apply Add_app.
        -- split; [now apply IHnd |]. intros Hin. apply Hk. now apply IHin.
Qed.

(** X15.  Every ticker leaves at most one mark on the chart, a line or
    an error message and never both; the marks bear the names of
    tickers of the histories; and when the keys of the histories are
    distinct, as those of a dictionary are, no name appears twice among
    the lines and the messages. *)
Theorem chart_loop_one_mark_per_ticker chart_type hs :
  (List.length (lines (chart_loop parse_numeric plot_error chart_type hs new_chart)) +
   List.length (errors (chart_loop parse_numeric plot_error chart_type hs new_chart))
     <= List.length hs)%nat /\
  incl (map fst (lines (chart_loop parse_numeric plot_error chart_type hs new_chart)) ++
        map fst (errors (chart_loop parse_numeric plot_error chart_type hs new_chart)))
       (map fst hs) /\
  (NoDup (map fst hs) ->
   NoDup (map fst (lines (chart_loop parse_numeric plot_error chart_type hs new_chart)) ++
          map fst (errors (chart_loop parse_numeric plot_error chart_type hs new_chart)))).
Proof. apply chart_loop_marks. Qed.

Lemma chart_step_ylabel chart_type c item :
  ylabel (chart_step parse_numeric plot_error chart_type c item) =
  match cleaned_close parse_numeric (snd item) with
  | Some (_ :: _) => Some (axis_label chart_type)
  | _ => ylabel c
  end.
Proof.
  unfold chart_step. destruct item as [s df]. cbn [snd].
  destruct (cleaned_close parse_numeric df) as [[| c0 s0] |] eqn:Hc.
  - now rewrite (build_empty parse_numeric df chart_type Hc).
  - destruct (build_nonempty chart_type df c0 s0 Hc) as (data & Hout & _).
    rewrite Hout. now destruct (plot_error s data).
  - now rewrite (build_no_column parse_numeric df chart_type Hc).
Qed.

Lemma chart_loop_ylabel_kept chart_type hs c :
  ylabel (chart_loop parse_numeric plot_error chart_type hs c) = ylabel c \/
  ylabel (chart_loop parse_numeric plot_error chart_type hs c) = Some (axis_label chart_type).
Proof.
  unfold chart_loop. revert c. induction hs as [| item hs IH]; intros c; cbn [fold_left].
  - now left.
  - destruct (IH (chart_step parse_numeric plot_error chart_type c item)) as [H | H];
      [| now right].
    rewrite H, chart_step_ylabel.
    destruct (cleaned_close parse_numeric (snd item)) as [[| ? ?] |]; auto.
Qed.

(** X16.  The axis gets its label from the first ticker that has a
    cleaned series to draw, whether or not the drawing then fails, and
    every later ticker sets the same label; when no ticker has one, the
    label is left as it was. *)
Theorem chart_loop_ylabel chart_type hs c :
  ((forall item, In item hs ->
      cleaned_close parse_numeric (snd item) = None \/
      cleaned_close parse_numeric (snd item) = Some []) ->
   ylabel (chart_loop parse_numeric plot_error chart_type hs c) = ylabel c) /\
  (forall item c0 s0,
     In item hs -> cleaned_close parse_numeric (snd item) = Some (c0 :: s0) ->
     ylabel (chart_loop parse_numeric plot_error chart_type hs c) =
       Some (axis_label chart_type)).
Proof.
  split.
  - unfold chart_loop. revert c. induction hs as [| item hs IH]; intros c Hall;
      cbn [fold_left]; [reflexivity |].
    rewrite IH by (intros it Hit; apply Hall; now right).
    rewrite chart_step_ylabel.
    destruct (Hall item (or_introl eq_refl)) as [-> | ->]; reflexivity.
  - revert c. induction hs as [| it hs IH]; intros c item c0 s0 Hin Hc; [destruct Hin |].
    destruct Hin as [-> | Hin].
    + change (chart_loop parse_numeric plot_error chart_type (item :: hs) c)
        with (chart_loop parse_numeric plot_error chart_type hs
                (chart_step parse_numeric plot_error chart_type c item)).
      destruct (chart_loop_ylabel_kept chart_type hs
                  (chart_step parse_numeric plot_error chart_type c item)) as [H | H];
        [| exact H].
      now rewrite H, chart_step_ylabel, Hc.
    + exact (IH (chart_step parse_numeric plot_error chart_type c it) item c0 s0 Hin Hc).
Qed.

End ChartFurther.

Lemma build_chart_series_only_KeyError_witness :
  outcome (build_chart_series parse_nothing "Relative Price" empty_frame) = inl KeyError /\
  In (EvDiv (PFloat f_75) (PFloat f_50))
     (events (build_chart_series parse_nothing "Relative Price"
                (close_frame [PStr "n/a"; PFloat f_50; PFloat f_75]))) /\
  zero_divisor (PFloat f_50) = false.
Proof.
  destruct (build_chart_series_only_KeyError parse_nothing) as [Hraise Hdiv].
  assert (Hin : In (EvDiv (PFloat f_75) (PFloat f_50))
                   (events (build_chart_series parse_nothing "Relative Price"
                              (close_frame [PStr "n/a"; PFloat f_50; PFloat f_75]))))
    by (right; left; reflexivity).
  split; [| split; [exact Hin |]].
  - apply (proj2 (Hraise "Relative Price"%string empty_frame KeyError)).
    split; reflexivity.
  - exact (Hdiv "Relative Price"%string
             (close_frame [PStr "n/a"; PFloat f_50; PFloat f_75]) _ _ Hin).
Defined.


Lemma chart_loop_one_mark_per_ticker_witness :
  NoDup (map fst sample_histories) /\
  NoDup (map fst (lines (chart_loop parse_nothing (plot_fails_for "X") "Relative Price"
                           sample_histories new_chart)) ++
         map fst (errors (chart_loop parse_nothing (plot_fails_for "X") "Relative Price"
                            sample_histories new_chart))).
Proof.
  assert (Hnd : NoDup (map fst sample_histories)).
  { cbn. repeat (constructor; [cbn; intuition discriminate |]). constructor. }
  split; [exact Hnd |].
  exact (proj2 (proj2 (chart_loop_one_mark_per_ticker parse_nothing (plot_fails_for "X")
                         "Relative Price"%string sample_histories)) Hnd).
Defined.

Lemma chart_loop_ylabel_witness :
  ylabel (chart_loop parse_nothing (plot_fails_for "X") "Actual Price"
            [("B"%string, close_frame [PNone; np_nan]); ("C"%string, empty_frame)]
            new_chart) = None /\
  ylabel (chart_loop parse_nothing (plot_fails_for "X") "Actual Price"
            [("C"%string, empty_frame); ("X"%string, close_frame [PFloat f_100])]
            new_chart) = Some "Actual Price"%string.
Proof.
  split.
  - apply (proj1 (chart_loop_ylabel parse_nothing (plot_fails_for "X") "Actual Price"%string
                    [("B"%string, close_frame [PNone; np_nan]); ("C"%string, empty_frame)]
                    new_chart)).
    intros item [<- | [<- | []]]; [right | left]; reflexivity.
  - apply (proj2 (chart_loop_ylabel parse_nothing (plot_fails_for "X") "Actual Price"%string
                    [("C"%string, empty_frame); ("X"%string, close_frame [PFloat f_100])]
                    new_chart)
             ("X"%string, close_frame [PFloat f_100]) (0, PFloat f_100) []).
    + right. now left.
    + reflexivity.
Defined.

(** ** The page as a whole *)

Lemma format_mcap_float_or_none (val : pyobj) :
  float_or_none (safe_scalar val) -> exists t, outcome (format_mcap val) = inr t.
Proof.
  intros Hv.
  change (format_mcap val) with (format_mcap (OScalar (safe_scalar val))).
  destruct Hv as [-> | [f ->]]; [now exists "NA"%string |].
  destruct (is_nan f) eqn:Hn.
  - exists "NA"%string. unfold format_mcap. cbn [safe_scalar pd_isna]. now rewrite Hn.
  - assert (Ha : as_float (PFloat f) = Some f) by (cbn; now rewrite Hn).
    rewrite (format_mcap_number _ _ Ha). eauto.
Qed.

Lemma rows_keys {R : string * DataFrame -> string * metric -> Prop}
    (hs : list (string * DataFrame)) (table : list (string * metric)) :
  (forall item row, R item row -> fst row = fst item) ->
  Forall2 R hs table -> map fst table = map fst hs.
Proof.
  intros HR H. induction H as [| item row hs table Hrow _ IH]; [reflexivity |].
  cbn [map]. now rewrite (HR item row Hrow), IH.
Qed.

Section PageProperties.

Variable yf_history : string -> string -> exn + DataFrame.
Variable yf_fast_info : string -> exn + fast_info.
Variable parse_numeric : string -> option float64.
Variable plot_error : string -> series -> option exn.

Lemma page_outcome stocks period chart_type :
  exists h,
    build_histories yf_history stocks period = ret h /\
    NoDup (map fst h) /\
    (forall s, In s (map fst h) <-> In s stocks) /\
    (forall k v, In (k, v) h -> v = loaded (yf_history k period)) /\
    outcome (page yf_history yf_fast_info parse_numeric plot_error stocks period chart_type) =
    match outcome (metrics yf_fast_info h) with
    | inl e => inl e
    | inr table =>
        inr (table, chart_loop parse_numeric plot_error chart_type h new_chart)
    end.
Proof.
  exists (fold_left (fun d s => dict_set s (loaded (yf_history s period)) d) stocks []).
  split; [apply build_histories_fold |].
  split; [apply histories_fold_nodup; constructor |].
  split; [| split].
  - intros s. rewrite histories_fold_keys. cbn. clear. tauto.
  - apply histories_fold_values. intros ? ? [].
  - unfold page, build_histories. rewrite build_histories_fold, bind_ret, outcome_bind.
    now destruct (outcome (metrics yf_fast_info _)).
Qed.

(** X17.  Whenever the page comes up, the table has exactly one row for
    each ticker entered, however often it was entered, and the chart has
    at most one line or one message for each of them, and none for any
    other name. *)
Theorem page_one_row_and_mark_per_ticker stocks period chart_type table c :
  outcome (page yf_history yf_fast_info parse_numeric plot_error stocks period chart_type) =
    inr (table, c) ->
  NoDup (map fst table) /\
  (forall s, In s (map fst table) <-> In s stocks) /\
  NoDup (map fst (lines c) ++ map fst (errors c)) /\
  incl (map fst (lines c) ++ map fst (errors c)) stocks.
Proof.
  intros Hpage.
  destruct (page_outcome stocks period chart_type) as (h & _ & Hnd & Hkeys & _ & Hout).
  rewrite Hout in Hpage.
  destruct (outcome (metrics yf_fast_info h)) as [e | table'] eqn:Hm; [discriminate |].
  injection Hpage as -> <-.
  unfold metrics in Hm.
  apply (metrics_fold_rows yf_fast_info h (ret []) [] table eq_refl Hnd) in Hm.
  destruct Hm as (rows & -> & Hrows). cbn [app].
  assert (Hk : map fst rows = map fst h).
  { apply (rows_keys h rows (R := row_of yf_fast_info)); [| exact Hrows].
    now intros item row (H & _). }
  rewrite Hk.
  destruct (chart_loop_marks parse_numeric plot_error chart_type h) as (_ & Hin & Hmarks).
  split; [exact Hnd | split; [exact Hkeys | split; [now apply Hmarks |]]].
  intros x Hx. apply Hkeys. now apply Hin.
Qed.

(** X18.  With a provider that delivers what it is meant to deliver,
    closing columns of floats and [None] and capitalizations that are
    floats or [None], or that fails, the page always comes up: neither
    the metrics nor anything before them raises. *)
Theorem page_total_on_provider_floats stocks period chart_type :
  (forall s, In s stocks -> float_frame (loaded (yf_history s period))) ->
  (forall s, In s stocks -> float_cap (yf_fast_info s)) ->
  exists table c,
    outcome (page yf_history yf_fast_info parse_numeric plot_error stocks period chart_type) =
      inr (table, c).
Proof.
  intros Hframes Hcaps.
  destruct (page_outcome stocks period chart_type) as (h & _ & Hnd & Hkeys & Hvals & Hout).
  assert (Hrows : exists rows, Forall2 (row_of yf_fast_info) h rows).
  { assert (Hitems : forall item, In item h -> In (fst item) stocks /\
                                                float_frame (snd item)).
    { intros [k v] Hin. cbn [fst snd].
      assert (Hk : In k stocks) by (apply Hkeys; now apply (in_map fst h (k, v))).
      split; [exact Hk |]. rewrite (Hvals k v Hin). now apply Hframes. }
    clear Hnd Hkeys Hvals Hout. induction h as [| [k df] h IH].
    - exists []. constructor.
    - destruct IH as [rows Hrows]; [intros item Hin; apply Hitems; now right |].
      destruct (Hitems (k, df) (or_introl eq_refl)) as [Hk Hdf]. cbn [fst snd] in *.
      destruct (compute_returns_float_frame df Hdf) as [r Hr].
      assert (Hcap : exists t,
        outcome (cap <- get_marketcap yf_fast_info k ;; format_mcap cap) = inr t).
      { rewrite get_marketcap_value, bind_ret. apply format_mcap_float_or_none.
        destruct (Hcaps k Hk) as [Hl | (info & v & Hi & Hv & Hf)].
        - unfold lacks_cap in Hl.
          destruct (yf_fast_info k) as [e | info];
            [right; eexists; reflexivity |].
          destruct (info "marketCap"%string) as [e | [v |]];
            [right; eexists; reflexivity | destruct Hl | right; eexists; reflexivity].
        - now rewrite Hi, Hv. }
      destruct Hcap as [t Ht].
      exists ((k, mkMetric (PFloat r) t) :: rows). constructor; [| exact Hrows].
      unfold row_of. cbn [fst snd return_pct market_cap]. auto. }
  destruct Hrows as [rows Hrows].
  assert (Hm : outcome (metrics yf_fast_info h) = inr rows).
  { unfold metrics.
    apply (metrics_fold_rows yf_fast_info h (ret []) [] rows eq_refl Hnd).
    now exists rows. }
  rewrite Hout, Hm. eauto.
Qed.

End PageProperties.

Lemma page_one_row_and_mark_per_ticker_witness :
  outcome (page sample_history sample_fast_info parse_nothing (plot_fails_for "X")
             ["TCS.NS"%string; "INFY.NS"%string; "TCS.NS"%string] "1y" "Relative Price") =
    inr ([("TCS.NS"%string, mkMetric (PFloat (mul (sub (div f_110 f_100) f_1) f_100)) "2.50 T");
          ("INFY.NS"%string, mkMetric (PFloat (mul (sub (div f_75 f_50) f_1) f_100)) "NA")],
         mkChart (Some "Relative Price (%)"%string)
                 [("TCS.NS"%string, [(0, PFloat f_100); (1, PFloat (mul (div f_110 f_100) f_100))]);
                  ("INFY.NS"%string, [(0, PFloat f_100); (2, PFloat f_150)])]
                 []) /\
  NoDup ["TCS.NS"%string; "INFY.NS"%string].
Proof.
  assert (H : outcome (page sample_history sample_fast_info parse_nothing (plot_fails_for "X")
             ["TCS.NS"%string; "INFY.NS"%string; "TCS.NS"%string] "1y" "Relative Price") =
    inr ([("TCS.NS"%string, mkMetric (PFloat (mul (sub (div f_110 f_100) f_1) f_100)) "2.50 T");
          ("INFY.NS"%string, mkMetric (PFloat (mul (sub (div f_75 f_50) f_1) f_100)) "NA")],
         mkChart (Some "Relative Price (%)"%string)
                 [("TCS.NS"%string, [(0, PFloat f_100); (1, PFloat (mul (div f_110 f_100) f_100))]);
                  ("INFY.NS"%string, [(0, PFloat f_100); (2, PFloat f_150)])]
                 [])) by (vm_compute; reflexivity).
  split; [exact H |].
  exact (proj1 (page_one_row_and_mark_per_ticker sample_history sample_fast_info
                  parse_nothing (plot_fails_for "X") _ _ _ _ _ H)).
Defined.

Lemma page_total_on_provider_floats_witness :
  exists table c,
    outcome (page sample_history sample_fast_info parse_nothing (plot_fails_for "X")
               ["RELIANCE.NS"%string; "TCS.NS"%string; "INFY.NS"%string] "1y" "Actual Price") =
      inr (table, c).
Proof.
  apply page_total_on_provider_floats.
  - intros s [<- | [<- | [<- | []]]].
    + left. reflexivity.
    + right. eexists. split; [reflexivity |].
      repeat (constructor; [right; eexists; reflexivity |]). constructor.
    + right. eexists. split; [reflexivity |].
      constructor; [right; eexists; reflexivity |].
      constructor; [right; eexists; reflexivity |].
      constructor; [right; eexists; reflexivity | constructor].
  - intros s [<- | [<- | [<- | []]]].
    + left. exact I.
    + right. eexists. eexists. split; [reflexivity | split; [reflexivity |]].
      right. eexists. reflexivity.
    + left. exact I.
Defined.
